(** * qlab-golang: the three-way reconciliation engine

    A shallow embedding of the cue indexer, the field comparator, the
    three-way comparison, conflict identification and resolution, the
    cache-preservation identifier, the mutation pass and the OSC
    request/retry loop of the [qlab] package, with the properties the
    specification states about them. *)

From Stdlib Require Import ZArith Strings.String Strings.Ascii Numbers.DecimalString.
From Stdlib Require Import Floats.SpecFloat.
From stdpp Require Import base option list gmap fin_maps strings.

Set Warnings "-register-all,-clear-no-such-hyp".

Local Open Scope string_scope.
Local Open Scope Z_scope.

(** ** Go strings

    A Go [string] is a byte sequence: [string] of [ascii] (8-bit) here. *)
Module GoString.

(** [strings.Contains(s, substr)]. *)
Fixpoint Contains (s substr : string) : bool :=
  String.prefix substr s ||
  match s with
  | EmptyString => false
  | String _ s' => Contains s' substr
  end.

(** The ASCII part of [unicode.ToLower]: bytes 'A'..'Z' are moved to
    'a'..'z', every other byte is kept. *)
Definition lower_byte (c : ascii) : ascii :=
  let n := nat_of_ascii c in
  if ((65 <=? n) && (n <=? 90))%nat then ascii_of_nat (n + 32) else c.

(** [strings.ToLower] on the byte sequence. *)
Fixpoint ToLower (s : string) : string :=
  match s with
  | EmptyString => EmptyString
  | String c s' => String (lower_byte c) (ToLower s')
  end.

(** [strings.EqualFold]: equality under (ASCII) case folding. *)
Definition EqualFold (s t : string) : bool :=
  bool_decide (ToLower s = ToLower t).

(** [fmt.Sprintf("%d", n)]. *)
Definition fmt_d (n : Z) : string := NilZero.string_of_int (Z.to_int n).

(** The last path element after the last '/' of [s], scanning with the
    element read so far in [cur]. *)
Fixpoint last_element (s cur : string) : string :=
  match s with
  | EmptyString => cur
  | String c s' =>
      if Ascii.eqb c "/" then last_element s' EmptyString
      else last_element s' (cur +:+ String c EmptyString)
  end.

(** Strips the trailing '/' bytes of [s]. *)
Fixpoint strip_trailing_slashes (s : string) : string :=
  match s with
  | EmptyString => EmptyString
  | String c s' =>
      match strip_trailing_slashes s' with
      | EmptyString => if Ascii.eqb c "/" then EmptyString else String c EmptyString
      | r => String c r
      end
  end.

(** [filepath.Base] with '/' as the separator and no volume name. *)
Definition Base (path : string) : string :=
  if decide (path = "") then "."
  else
    let path := strip_trailing_slashes path in
    let path := last_element path "" in
    if decide (path = "") then "/" else path.

End GoString.

(** ** Dynamic values

    What a Go [any] holds in the trees the engine reads: the cases the
    type switches of the source distinguish. A [map[string]any] is the
    list of its entries, read only through [mapGet]; a nil map reads like
    the empty one. *)
Abbreviation float64 := spec_float.

Inductive value : Type :=
  | VNil
  | VString (s : string)
  | VFloat64 (f : float64)
  | VInt64 (n : Z)
  | VInt (n : Z)
  | VBool (b : bool)
  | VArray (l : list value)
  | VMap (m : list (string * value)).

Abbreviation gomap := (list (string * value)).

(** [v, ok := m[k]]. *)
Fixpoint mapGet (m : gomap) (k : string) : option value :=
  match m with
  | [] => None
  | (k', v) :: m' => if decide (k' = k) then Some v else mapGet m' k
  end.

(** [s, _ := m[k].(string)]: the zero value when the key is absent or
    holds something else. *)
Definition getString (m : gomap) (k : string) : string :=
  match mapGet m k with
  | Some (VString s) => s
  | _ => ""
  end.

(** [if sub, ok := cue["cues"].([]any); ok { k sub } else { d }], written
    as a scan of the entries so that [sub] is a component of the map. *)
Definition withSubCues {A} (k : list value → A) (d : A) : gomap → A :=
  fix scan (m : gomap) : A :=
    match m with
    | [] => d
    | (key, x) :: m' =>
        if decide (key = "cues") then
          match x with
          | VArray subCues => k subCues
          | _ => d
          end
        else scan m'
    end.

(** [for i, x := range l { s = body i x s }], counting from [i]. *)
Definition rangeLoop {A St} (body : nat → A → St → St) : nat → list A → St → St :=
  fix loop (i : nat) (l : list A) (s : St) : St :=
    match l with
    | [] => s
    | x :: rest => loop (S i) rest (body i x s)
    end.

(** The library formatting verbs the code calls on values this
    development does not print itself. *)
Class Sprintf := {
  (** [fmt.Sprintf("%g", f)] *)
  fmt_g : float64 → string;
  (** [fmt.Sprintf("%v", v)] *)
  fmt_v : value → string
}.

(** ** Cue identity keys and the remote state indexer (cue_mapping.go) *)
Section Indexer.
Context `{Sprintf}.

(** [v == float64(int64(v)) && v >= 0 && v <= 999], with the integer the
    float holds when the test succeeds. Both comparisons fail on NaN, on
    infinities and on negative numbers; within [0, 999] the conversion
    to [int64] truncates, so the first conjunct says [v] is integral.
    Negative zero passes ([-0 == 0] and [-0 >= 0]). *)
Definition wholeUpTo999 (v : float64) : option Z :=
  match v with
  | S754_zero _ => Some 0
  | S754_finite false m e =>
      if 0 <=? e then
        let n := Z.pos m * 2 ^ e in
        if n <=? 999 then Some n else None
      else
        let d := 2 ^ (- e) in
        if Z.pos m mod d =? 0 then
          let n := Z.pos m / d in
          if n <=? 999 then Some n else None
        else None
  | _ => None
  end.

(** [fmt.Sprintf("%.1f", v)] for a float holding the integer [n]: the
    sign (of negative zero only, here), the integer digits, one decimal. *)
Definition fmt_1f_whole (v : float64) (n : Z) : string :=
  (match v with S754_zero true => "-" | _ => "" end)
    +:+ GoString.fmt_d n +:+ ".0".

(** The type switch on [cue["number"]]. *)
Definition formatNumber (num : value) : string :=
  match num with
  | VString v => v
  | VFloat64 v =>
      match wholeUpTo999 v with
      | Some n => fmt_1f_whole v n
      | None => fmt_g v
      end
  | VInt64 v => GoString.fmt_d v
  | VInt v => GoString.fmt_d v
  | v => fmt_v v
  end.

(** The local [cueNumber]: empty unless the key is present and not nil. *)
Definition cueNumber (cue : gomap) : string :=
  match mapGet cue "number" with
  | Some VNil | None => ""
  | Some num => formatNumber num
  end.

(** The local [fullNumber]: the cue number under its parent's prefix. *)
Definition fullNumber (parentNumber cueNumber : string) : string :=
  if decide (parentNumber ≠ "" ∧ cueNumber ≠ "") then
    if GoString.Contains cueNumber "." then cueNumber
    else parentNumber +:+ "." +:+ cueNumber
  else cueNumber.

(** The local [positionKey]: ["%s@%d[%s:%s]"], or ["@%d[%s:%s]"] at the
    root; the two formats agree when [parentNumber] is empty. *)
Definition positionKey (parentNumber : string) (i : nat) (cueType cueName : string) : string :=
  let normalizedType := GoString.ToLower cueType in
  if decide (parentNumber ≠ "") then
    parentNumber +:+ "@" +:+ GoString.fmt_d (Z.of_nat i) +:+ "[" +:+ normalizedType +:+ ":" +:+ cueName +:+ "]"
  else
    "@" +:+ GoString.fmt_d (Z.of_nat i) +:+ "[" +:+ normalizedType +:+ ":" +:+ cueName +:+ "]".

(** The key one loop iteration writes for [cue], if it writes one. *)
Definition indexKey (cue : gomap) (parentNumber : string) (i : nat) : option string :=
  let fullNumber := fullNumber parentNumber (cueNumber cue) in
  if decide (fullNumber ≠ "") then Some fullNumber
  else
    let cueName := getString cue "name" in
    let cueType := getString cue "type" in
    if decide (cueType ≠ "" ∨ cueName ≠ "")
    then Some (positionKey parentNumber i cueType cueName)
    else None.

(** The body of the loop up to the recursive call. *)
Definition indexCue (cue : gomap) (parentNumber : string) (i : nat)
    (cueIndex : gmap string gomap) : gmap string gomap :=
  match indexKey cue parentNumber i with
  | Some key => <[key := cue]> cueIndex
  | None => cueIndex
  end.

(** One iteration of the loop of [indexCuesRecursively] on the element
    [cueData] at position [i], and through [rangeLoop] the recursive
    call on its sub-cues. An element that is not a map is skipped. *)
Fixpoint indexCueData (cueData : value) (i : nat) (parentNumber : string)
    (cueIndex : gmap string gomap) {struct cueData} : gmap string gomap :=
  match cueData with
  | VMap cue =>
      let full := fullNumber parentNumber (cueNumber cue) in
      let cueIndex := indexCue cue parentNumber i cueIndex in
      withSubCues
        (λ subCues, rangeLoop (λ j sub idx, indexCueData sub j full idx) 0 subCues cueIndex)
        cueIndex cue
  | _ => cueIndex
  end.

Definition indexCuesRecursively (cuesData : list value) (parentNumber : string)
    (cueIndex : gmap string gomap) : gmap string gomap :=
  rangeLoop (λ i cueData idx, indexCueData cueData i parentNumber idx) 0 cuesData cueIndex.

(** [cuesData = append(cuesData, listCues...)] over the cue lists of a
    remote reply: the lists that are maps holding a [cues] array. *)
Fixpoint cuesOfCueLists (cueLists : list value) : list value :=
  match cueLists with
  | [] => []
  | VMap cueList :: rest =>
      match mapGet cueList "cues" with
      | Some (VArray listCues) => listCues ++ cuesOfCueLists rest
      | _ => cuesOfCueLists rest
      end
  | _ :: rest => cuesOfCueLists rest
  end.

(** The four accepted shapes of a workspace tree. *)
Definition workspaceCues (workspace : gomap) : list value :=
  match mapGet workspace "cues" with
  | Some (VArray cues) => cues
  | _ =>
    match mapGet workspace "workspace" with
    | Some (VMap workspaceData) =>
        match mapGet workspaceData "cues" with
        | Some (VArray cues) => cues
        | _ => []
        end
    | _ =>
      match mapGet workspace "data" with
      | Some (VMap data) =>
          (match mapGet data "cueLists" with
           | Some (VArray cueLists) => cuesOfCueLists cueLists
           | _ => []
           end) ++
          (match mapGet data "cues" with
           | Some (VArray directCues) => directCues
           | _ => []
           end)
      | Some (VArray cueLists) => cuesOfCueLists cueLists
      | _ => []
      end
    end
  end.

Definition indexCuesFromWorkspace (workspace : gomap) : gmap string gomap :=
  indexCuesRecursively (workspaceCues workspace) "" ∅.

End Indexer.

(** ** The field-level comparator (compareCuePropertiesDetailed) *)
Section Comparator.
Context `{Sprintf}.

(** [m[k]] as a value: nil when the key is absent. *)
Definition mapIndex (m : gomap) (k : string) : value :=
  default VNil (mapGet m k).

(** [_, has := m[k]]. *)
Definition hasKey (m : gomap) (k : string) : bool :=
  bool_decide (is_Some (mapGet m k)).

Definition normalizeProperty (v : value) : string :=
  match v with
  | VNil => ""
  | VString v => v
  | VFloat64 v => fmt_g v
  | VInt64 v => GoString.fmt_d v
  | VInt v => GoString.fmt_d v
  | VBool v => if v then "true" else "false"
  | v => fmt_v v
  end.

Definition comparePropertyValues (property val1 val2 : string) : bool :=
  if bool_decide (val1 = val2) then true
  else if bool_decide (property = "armed") || bool_decide (property = "flagged") then true
  else if bool_decide (property = "duration")
          && ((bool_decide (val1 = "0") && bool_decide (val2 = ""))
              || (bool_decide (val1 = "") && bool_decide (val2 = "0"))) then true
  else if bool_decide (property = "type") && GoString.EqualFold val1 val2 then true
  else if bool_decide (property = "fileTarget") then
    if bool_decide (val1 ≠ "") && bool_decide (val2 ≠ "")
    then bool_decide (GoString.Base val1 = GoString.Base val2)
    else false
  else if bool_decide (property = "colorName")
          && ((bool_decide (val1 = "") && bool_decide (val2 = "none"))
              || (bool_decide (val1 = "none") && bool_decide (val2 = ""))) then true
  else if bool_decide (property = "cueTargetNumber") then
    if bool_decide (val1 = "") && bool_decide (val2 = "") then true
    else bool_decide (val1 = val2)
  else false.

Definition allProperties : list string :=
  ["name"; "type"; "fileTarget"; "duration"; "cueTargetNumber";
   "armed"; "colorName"; "flagged"; "notes"].

(** [fmt.Sprintf("'%s' -> '%s'", val1, val2)]. *)
Definition fmt_diff (val1 val2 : string) : string :=
  "'" +:+ val1 +:+ "' -> '" +:+ val2 +:+ "'".

(** The body of the loop over [allProperties]: the entry it writes for
    [prop], if any. *)
Definition propertyDifference (cue1 cue2 : gomap) (prop : string) : option string :=
  let val1 := normalizeProperty (mapIndex cue1 prop) in
  let val2 := normalizeProperty (mapIndex cue2 prop) in
  if bool_decide (val1 = "") && bool_decide (val2 = "") then None
  else if (bool_decide (prop = "fileTarget") || bool_decide (prop = "cueTargetNumber"))
          && (negb (hasKey cue1 prop) || negb (hasKey cue2 prop)) then None
  else if negb (comparePropertyValues prop val1 val2) then Some (fmt_diff val1 val2)
  else None.

Definition compareCuePropertiesDetailed (cue1 cue2 : gomap) : gmap string string :=
  foldl (λ differences prop,
           match propertyDifference cue1 cue2 prop with
           | Some d => <[prop := d]> differences
           | None => differences
           end) ∅ allProperties.

(** [len(m) == 0]. *)
Definition isEmptyMap {A} (m : gmap string A) : bool := bool_decide (m = ∅).

Definition compareCueProperties (cue1 cue2 : gomap) : bool :=
  isEmptyMap (compareCuePropertiesDetailed cue1 cue2).

(** *** The comparison policy as the specification words it *)

(** When two normalized values of [field] count as the same. *)
Definition policyEquivalent (field a b : string) : Prop :=
  a = b ∨
  (field = "armed" ∨ field = "flagged") ∨
  (field = "duration" ∧ ((a = "0" ∧ b = "") ∨ (a = "" ∧ b = "0"))) ∨
  (field = "type" ∧ GoString.ToLower a = GoString.ToLower b) ∨
  (field = "colorName" ∧ ((a = "" ∧ b = "none") ∨ (a = "none" ∧ b = ""))) ∨
  (field = "fileTarget" ∧ a ≠ "" ∧ b ≠ "" ∧ GoString.Base a = GoString.Base b).

#[local] Instance policyEquivalent_dec field a b : Decision (policyEquivalent field a b).
Proof. unfold policyEquivalent. apply _. Defined.

(** Whether [field] is one of the two fields compared only when both
    bags define the key, and one of them does not. *)
Definition skippedAsUndefined (cue1 cue2 : gomap) (field : string) : Prop :=
  (field = "fileTarget" ∨ field = "cueTargetNumber") ∧
  ¬ (is_Some (mapGet cue1 field) ∧ is_Some (mapGet cue2 field)).

#[local] Instance skippedAsUndefined_dec cue1 cue2 field :
  Decision (skippedAsUndefined cue1 cue2 field).
Proof. unfold skippedAsUndefined. apply _. Defined.

(** The difference the policy reports for [field]. *)
Definition policyDifference (cue1 cue2 : gomap) (field : string) : option string :=
  let a := normalizeProperty (mapIndex cue1 field) in
  let b := normalizeProperty (mapIndex cue2 field) in
  if decide (field ∈ allProperties) then
    if decide (skippedAsUndefined cue1 cue2 field) then None
    else if decide (policyEquivalent field a b) then None
    else Some ("'" +:+ a +:+ "' -> '" +:+ b +:+ "'")
  else None.

End Comparator.

(** ** The data model of a comparison (workspace_comparison.go, part_007) *)

Definition ConflictType := string.
Definition ConflictThreeWayDivergence : ConflictType := "three_way_divergence".
Definition ConflictCacheStale : ConflictType := "cache_stale".
Definition ConflictSourceModified : ConflictType := "source_modified".

Definition ConflictScope := string.
Definition ScopeWorkspace : ConflictScope := "workspace".
Definition ScopeCueList : ConflictScope := "cuelist".
Definition ScopeCue : ConflictScope := "cue".
Definition ScopeField : ConflictScope := "field".

Record FieldConflict := {
  FieldName : string;
  SourceValue : value;
  CacheValue : value;
  QLabValue : value;
  ChosenValue : value;
  ChosenSource : string
}.

(** [ChildScopes] holds the non-nil children: a nil child contributes
    nothing to any function below. *)
Inductive ScopeComparison := {
  Scope : ConflictScope;
  Identifier : string;
  HasChanges : bool;
  ChangeType : string;
  FieldChanges : gmap string FieldConflict;
  ChildScopes : list ScopeComparison;
  ConflictExists : bool;
  Resolved : bool
}.

Record MergedScope := {
  MergedScopeOf : ConflictScope;
  MergedIdentifier : string;
  MergedData : gomap;
  SourceFields : gmap string string;
  AppliedAt : string
}.

Record CueConflict := {
  CueNumber : string;
  CueIdentifier : string;
  ConflictTypeOf : ConflictType;
  ConflictScopeOf : ConflictScope;
  SourceData : option gomap;
  CacheData : option gomap;
  QLabData : option gomap;
  Properties : list string;
  ConflictFields : gmap string FieldConflict;
  Description : string;
  ConflictResolved : bool
}.

Record CueChangeResult := {
  HasChanged : bool;
  Reason : string;
  ExistingID : string;
  Action : string;
  ModifiedFields : gmap string string;
  CueID : string;
  FieldConflicts : gmap string FieldConflict;
  ScopeData : option ScopeComparison
}.

(** [CueResults] maps each key to the result it points to. The engine
    allocates one result per key, so no two keys share a result and none
    is nil. *)
Record ThreeWayComparison := {
  CueResults : gmap string CueChangeResult;
  HasCache : bool;
  HasQLabData : bool;
  CacheMatchesQLab : bool;
  QLabChosenCues : gmap string bool;
  QLabChosenFields : gmap string (gmap string bool);
  CurrentQLabData : option gomap;
  WorkspaceScope : option ScopeComparison;
  MergedResult : option MergedScope
}.

(** A Go [(T, error)] pair. *)
Inductive result (A : Type) : Type :=
  | Ok (a : A)
  | Err (msg : string).
Arguments Ok {A} a.
Arguments Err {A} msg.

(** ** The three-way comparison (part_005) *)

(** What the outside world answers during one comparison. *)
Record World := {
  (** [findMostRecentCacheFile] then [loadCacheFileData]: an error of
      either leaves [HasCache] false. *)
  cacheData : result gomap;
  (** [queryCurrentWorkspaceState()] *)
  fullQuery : result gomap;
  (** [q.wasConnected] when the failed query is inspected *)
  wasConnected : bool;
  (** [queryWorkspaceStateLightweight()] *)
  lightweightQuery : result gomap;
  (** [PerformScopeBasedComparison(source, cache, current)] *)
  scopeBasedComparison : gomap → gomap → gomap → result ScopeComparison
}.

Section ThreeWay.
Context `{Sprintf}.

Definition compareCacheWithCurrentState (cachedWorkspace currentWorkspace : gomap) : bool :=
  let cachedCues := indexCuesFromWorkspace cachedWorkspace in
  let currentCues := indexCuesFromWorkspace currentWorkspace in
  if negb (bool_decide (size cachedCues = size currentCues)) then false
  else
    bool_decide (map_Forall (λ cueNumber cachedCue,
      from_option (compareCueProperties cachedCue) false (currentCues !! cueNumber) = true)
      cachedCues).

(** Step 2: the current workspace when [HasQLabData] ends up true. *)
Definition queryCurrent (w : World) : option gomap :=
  match fullQuery w with
  | Ok currentWorkspace => Some currentWorkspace
  | Err msg =>
      if wasConnected w then
        if GoString.Contains msg "timeout" then
          match lightweightQuery w with
          | Ok currentWorkspace => Some currentWorkspace
          | Err _ => None
          end
        else None
      else None
  end.

(** [result.ModifiedFields[prefix+field] = diff] for every entry of
    [diffs]. *)
Definition addPrefixed (prefix : string) (diffs : gmap string string)
    (modified : gmap string string) : gmap string string :=
  map_fold (λ field diff modified, <[prefix +:+ field := diff]> modified) modified diffs.

(** The body of the loop over [sourceCues]. *)
Definition compareSourceCue (cachedCues currentCues : gmap string gomap)
    (cueNumber : string) (sourceCue : gomap) : CueChangeResult :=
  match currentCues !! cueNumber with
  | Some currentCue =>
      let id := getString currentCue "uniqueID" in
      match cachedCues !! cueNumber with
      | Some cachedCue =>
          let sourceCacheDiffs := compareCuePropertiesDetailed sourceCue cachedCue in
          let cacheCurrentDiffs := compareCuePropertiesDetailed cachedCue currentCue in
          let sourceMatchesCache := isEmptyMap sourceCacheDiffs in
          let cacheMatchesCurrent := isEmptyMap cacheCurrentDiffs in
          if sourceMatchesCache && cacheMatchesCurrent then
            {| HasChanged := false; Action := "skip";
               Reason := "unchanged since last transmission";
               ModifiedFields := ∅;
               ExistingID := id; CueID := id; FieldConflicts := ∅; ScopeData := None |}
          else if sourceMatchesCache && negb cacheMatchesCurrent then
            {| HasChanged := true; Action := "update";
               Reason := "QLab modified externally, reverting to source";
               ModifiedFields := cacheCurrentDiffs;
               ExistingID := id; CueID := id; FieldConflicts := ∅; ScopeData := None |}
          else if negb sourceMatchesCache && cacheMatchesCurrent then
            {| HasChanged := true; Action := "update";
               Reason := "source file modified";
               ModifiedFields := sourceCacheDiffs;
               ExistingID := id; CueID := id; FieldConflicts := ∅; ScopeData := None |}
          else
            {| HasChanged := true; Action := "update";
               Reason := "both source and QLab modified";
               ModifiedFields :=
                 addPrefixed "cache_vs_current_" cacheCurrentDiffs
                   (addPrefixed "source_vs_cache_" sourceCacheDiffs ∅);
               ExistingID := id; CueID := id; FieldConflicts := ∅; ScopeData := None |}
      | None =>
          let sourceCurrentDiffs := compareCuePropertiesDetailed sourceCue currentCue in
          if isEmptyMap sourceCurrentDiffs then
            {| HasChanged := false; Action := "skip";
               Reason := "matches current QLab state";
               ModifiedFields := ∅;
               ExistingID := id; CueID := id; FieldConflicts := ∅; ScopeData := None |}
          else
            {| HasChanged := true; Action := "update";
               Reason := "differs from current QLab state";
               ModifiedFields := sourceCurrentDiffs;
               ExistingID := id; CueID := id; FieldConflicts := ∅; ScopeData := None |}
      end
  | None =>
      {| HasChanged := true; Action := "create"; Reason := "new cue";
         ModifiedFields := ∅;
         ExistingID := ""; CueID := ""; FieldConflicts := ∅; ScopeData := None |}
  end.

(** One iteration of [linkScopeDataToCueResults]. *)
Definition linkScope (cueResults : gmap string CueChangeResult) (cueScope : ScopeComparison)
    : gmap string CueChangeResult :=
  if bool_decide (Scope cueScope = ScopeCue) then
    alter (λ r, {| HasChanged := HasChanged r; Reason := Reason r;
                   ExistingID := ExistingID r; Action := Action r;
                   ModifiedFields := ModifiedFields r; CueID := CueID r;
                   FieldConflicts := FieldChanges cueScope;
                   ScopeData := Some cueScope |})
          (Identifier cueScope) cueResults
  else cueResults.

Definition linkScopeDataToCueResults (workspaceScope : option ScopeComparison)
    (cueResults : gmap string CueChangeResult) : gmap string CueChangeResult :=
  match workspaceScope with
  | None => cueResults
  | Some scope => foldl linkScope cueResults (ChildScopes scope)
  end.

(** The three indexes of step 4: the cache index is the nil map (no
    entry) without a cache, the current index the empty map without
    remote data. *)
Definition cueIndexes (sourceCueData : gomap) (cachedWorkspace currentWorkspace : option gomap)
    : gmap string gomap * gmap string gomap * gmap string gomap :=
  (indexCuesFromWorkspace sourceCueData,
   match cachedWorkspace with
   | Some cached => indexCuesFromWorkspace cached
   | None => ∅
   end,
   match currentWorkspace with
   | Some current => indexCuesFromWorkspace current
   | None => ∅
   end).

(** [PerformThreeWayComparison]; its error result is always nil. *)
Definition PerformThreeWayComparison (w : World) (sourceCueData : gomap) : ThreeWayComparison :=
  let cachedWorkspace :=
    match cacheData w with Ok c => Some c | Err _ => None end in
  let hasCache := bool_decide (is_Some cachedWorkspace) in
  let currentWorkspace := queryCurrent w in
  let hasQLabData := bool_decide (is_Some currentWorkspace) in
  let '(cacheMatchesQLab, workspaceScope) :=
    match cachedWorkspace, currentWorkspace with
    | Some cached, Some current =>
        (compareCacheWithCurrentState cached current,
         match scopeBasedComparison w sourceCueData cached current with
         | Ok scope => Some scope
         | Err _ => None
         end)
    | _, _ => (false, None)
    end in
  let '(sourceCues, cachedCues, currentCues) :=
    cueIndexes sourceCueData cachedWorkspace currentWorkspace in
  let cueResults := map_imap (λ cueNumber sourceCue,
      Some (compareSourceCue cachedCues currentCues cueNumber sourceCue)) sourceCues in
  {| CueResults := linkScopeDataToCueResults workspaceScope cueResults;
     HasCache := hasCache;
     HasQLabData := hasQLabData;
     CacheMatchesQLab := cacheMatchesQLab;
     QLabChosenCues := ∅;
     QLabChosenFields := ∅;
     CurrentQLabData := currentWorkspace;
     WorkspaceScope := workspaceScope;
     MergedResult := None |}.

End ThreeWay.

(** ** Conflict identification (IdentifyConflicts) *)
Section Conflicts.
Context `{Sprintf}.

(** [isFieldConflict], a method of the package that the conflict walk
    calls on every field change. *)
Variable isFieldConflict : FieldConflict → bool.

(** [fmt.Sprintf("%v", properties)] for a [[]string]. *)
Definition fmt_strings (l : list string) : string :=
  "[" +:+ String.concat " " l +:+ "]".

(** The conflict of one scope, if it reports one. Ranging over a map,
    the order of [properties] is the order [map_to_list] gives. *)
Definition scopeConflict (scope : ScopeComparison) : list CueConflict :=
  if ConflictExists scope then
    let fieldConflicts := filter (λ kv, isFieldConflict kv.2 = true) (FieldChanges scope) in
    let properties := (map_to_list fieldConflicts).*1 in
    if bool_decide (0 < length properties)%nat then
      let hasSourceChanges := bool_decide (map_Exists (λ _ fc,
          comparePropertyValues (FieldName fc) (normalizeProperty (SourceValue fc))
            (normalizeProperty (CacheValue fc)) = false) fieldConflicts) in
      let hasQLabChanges := bool_decide (map_Exists (λ _ fc,
          comparePropertyValues (FieldName fc) (normalizeProperty (QLabValue fc))
            (normalizeProperty (CacheValue fc)) = false) fieldConflicts) in
      let '(conflictType, description) :=
        if hasSourceChanges && hasQLabChanges then
          (ConflictThreeWayDivergence,
           Scope scope +:+ " '" +:+ Identifier scope +:+
             "' has conflicting changes in source and QLab (fields: " +:+
             fmt_strings properties +:+ ")")
        else if hasQLabChanges then
          (ConflictCacheStale,
           Scope scope +:+ " '" +:+ Identifier scope +:+
             "' modified in QLab (fields: " +:+ fmt_strings properties +:+ ")")
        else if hasSourceChanges then
          (ConflictSourceModified,
           Scope scope +:+ " '" +:+ Identifier scope +:+
             "' modified in source (fields: " +:+ fmt_strings properties +:+ ")")
        else ("", "") in
      [ {| CueNumber := Identifier scope; CueIdentifier := Identifier scope;
           ConflictTypeOf := conflictType; ConflictScopeOf := Scope scope;
           SourceData := None; CacheData := None; QLabData := None;
           Properties := properties; ConflictFields := fieldConflicts;
           Description := description; ConflictResolved := false |} ]
    else []
  else [].

Fixpoint identifyConflictsFromScope (scope : ScopeComparison) : list CueConflict :=
  scopeConflict scope ++ concat (map identifyConflictsFromScope (ChildScopes scope)).

(** The body of the legacy loop over [CueResults]. *)
Definition legacyConflict (cueNumber : string) (r : CueChangeResult) : list CueConflict :=
  if bool_decide (Action r = "update")
     && (GoString.Contains (Reason r) "QLab modified externally"
         || GoString.Contains (Reason r) "both source and QLab modified") then
    let '(conflictType, description) :=
      if GoString.Contains (Reason r) "QLab modified externally" then
        (ConflictCacheStale,
         "Cue " +:+ cueNumber +:+ " has been modified in QLab since last sync")
      else
        (ConflictThreeWayDivergence,
         "Cue " +:+ cueNumber +:+
           " has been modified in both the source file and QLab since last sync") in
    [ {| CueNumber := cueNumber; CueIdentifier := cueNumber;
         ConflictTypeOf := conflictType; ConflictScopeOf := ScopeCue;
         SourceData := None; CacheData := None; QLabData := None;
         Properties := []; ConflictFields := FieldConflicts r;
         Description := description; ConflictResolved := false |} ]
  else [].

(** [IdentifyConflicts]: the conflicts and the error, which is always
    nil. The legacy loop ranges over a map: the conflicts come in the
    order [map_to_list] gives. *)
Definition IdentifyConflicts (comparison : ThreeWayComparison)
    : list CueConflict * option string :=
  if negb (HasQLabData comparison) then ([], None)
  else if negb (HasCache comparison) then ([], None)
  else if CacheMatchesQLab comparison then ([], None)
  else
    match WorkspaceScope comparison with
    | Some scope => (identifyConflictsFromScope scope, None)
    | None =>
        (concat (map (λ kv, legacyConflict kv.1 kv.2) (map_to_list (CueResults comparison))),
         None)
    end.

End Conflicts.

(** ** Conflict resolution (conflict_resolver.go) *)

Definition ConflictResolutionChoice := string.
Definition ChoiceUseSource : ConflictResolutionChoice := "use_source".
Definition ChoiceKeepQLab : ConflictResolutionChoice := "keep_qlab".
Definition ChoiceSkip : ConflictResolutionChoice := "skip".

(** [result.Action = action; result.Reason = reason]. *)
Definition setActionReason (action reason : string) (r : CueChangeResult) : CueChangeResult :=
  {| HasChanged := HasChanged r; Reason := reason; ExistingID := ExistingID r;
     Action := action; ModifiedFields := ModifiedFields r; CueID := CueID r;
     FieldConflicts := FieldConflicts r; ScopeData := ScopeData r |}.

(** The parts of the comparison a resolution writes. *)
Definition withResolution (comparison : ThreeWayComparison)
    (cueResults : gmap string CueChangeResult) (chosen : gmap string bool) : ThreeWayComparison :=
  {| CueResults := cueResults; HasCache := HasCache comparison;
     HasQLabData := HasQLabData comparison; CacheMatchesQLab := CacheMatchesQLab comparison;
     QLabChosenCues := chosen; QLabChosenFields := QLabChosenFields comparison;
     CurrentQLabData := CurrentQLabData comparison;
     WorkspaceScope := WorkspaceScope comparison; MergedResult := MergedResult comparison |}.

(** The body of the loop of [ApplyResolutions]. *)
Definition applyResolution (cueNumber : string) (choice : ConflictResolutionChoice)
    (comparison : ThreeWayComparison) : ThreeWayComparison :=
  match CueResults comparison !! cueNumber with
  | None => comparison
  | Some result =>
      if bool_decide (choice = ChoiceUseSource) then
        withResolution comparison
          (<[cueNumber := setActionReason "update" "User chose to use source file version" result]>
             (CueResults comparison))
          (QLabChosenCues comparison)
      else if bool_decide (choice = ChoiceKeepQLab) then
        withResolution comparison
          (<[cueNumber := setActionReason "skip" "User chose to keep QLab version" result]>
             (CueResults comparison))
          (<[cueNumber := true]> (QLabChosenCues comparison))
      else if bool_decide (choice = ChoiceSkip) then
        withResolution comparison
          (<[cueNumber := setActionReason "skip" "User chose to skip this cue" result]>
             (CueResults comparison))
          (QLabChosenCues comparison)
      else
        withResolution comparison (<[cueNumber := result]> (CueResults comparison))
          (QLabChosenCues comparison)
  end.

Definition ApplyResolutions (comparison : ThreeWayComparison)
    (resolutions : gmap string ConflictResolutionChoice) : ThreeWayComparison :=
  map_fold applyResolution comparison resolutions.

(** ** Preserving skipped cues in the new cache (part_005) *)
Section CachePreservation.
Context `{Sprintf}.

Definition extractCueIdentifier (cue : gomap) (parentNumber : string) : string :=
  let fullNumber := fullNumber parentNumber (cueNumber cue) in
  if decide (fullNumber = "") then
    let cueName := getString cue "name" in
    let cueType := getString cue "type" in
    "[" +:+ cueType +:+ ":" +:+ cueName +:+ "]"
  else fullNumber.

(** A loop that stops at the first element [f] rewrites: the list with
    that element rewritten, or [None] when [f] rewrites none. *)
Definition replaceFirst {A} (f : A → option A) : list A → option (list A) :=
  fix loop (l : list A) : option (list A) :=
    match l with
    | [] => None
    | x :: rest =>
        match f x with
        | Some x' => Some (x' :: rest)
        | None => cons x <$> loop rest
        end
    end.

(** [cue["cues"]] rewritten in place by [f] when it is an array. *)
Definition replaceInSubCues (f : list value → option (list value)) : gomap → option gomap :=
  fix scan (m : gomap) : option gomap :=
    match m with
    | [] => None
    | (key, x) :: m' =>
        if decide (key = "cues") then
          match x with
          | VArray childCues => (λ l, (key, VArray l) :: m') <$> f childCues
          | _ => None
          end
        else cons (key, x) <$> scan m'
    end.

(** One iteration of the loop of [findAndReplaceCueInArray]: the
    element with the cue replaced, in it or below it, if it was found. *)
Fixpoint findAndReplaceCue (cueInterface : value) (cachedCue : gomap)
    (cueNumber parentNumber : string) {struct cueInterface} : option value :=
  match cueInterface with
  | VMap cue =>
      if decide (extractCueIdentifier cue parentNumber = cueNumber) then Some (VMap cachedCue)
      else
        let childParentNumber := extractCueIdentifier cue parentNumber in
        VMap <$> replaceInSubCues
          (replaceFirst (λ child, findAndReplaceCue child cachedCue cueNumber childParentNumber))
          cue
  | _ => None
  end.

(** [findAndReplaceCueInArray]: the array after the replacement when it
    returns true, [None] when it returns false. *)
Definition findAndReplaceCueInArray (cues : list value) (cachedCue : gomap)
    (cueNumber parentNumber : string) : option (list value) :=
  replaceFirst (λ c, findAndReplaceCue c cachedCue cueNumber parentNumber) cues.

End CachePreservation.

(** ** The mutation pass (processCueListWithParentMappingAndChangeDetectionWithIndex) *)

(** The requests of the pass to the remote workspace, each standing for
    the OSC messages of the method that sends them. *)
Inductive Command :=
  | CreateCue (cueData : gomap) (cueNumber : string)
  | UpdateCue (uniqueID : string) (cueData : gomap)
  | MoveCue (cueID parentCueID : string)
  | MoveCueAt (cueID parentCueID : string) (index : nat).

Record CueTarget := { UniqueID : string; TargetNumber : string }.

(** The state a pass reads and writes: the list names of the workspace,
    the [CueMapping], and the requests issued so far. *)
Record Pass := {
  cueListNames : gmap string string;
  NumberToID : gmap string string;
  CuesWithTargets : list CueTarget;
  issued : list Command
}.

(** A method of the pass: a state transformer that returns a value or an
    error. *)
Definition M (A : Type) : Type := Pass → result A * Pass.

Definition ret {A} (a : A) : M A := λ st, (Ok a, st).
Definition fail {A} (msg : string) : M A := λ st, (Err msg, st).
Definition bind {A B} (m : M A) (k : A → M B) : M B :=
  λ st, match m st with
        | (Ok a, st') => k a st'
        | (Err msg, st') => (Err msg, st')
        end.
(** [if err != nil { return "", fmt.Errorf(..., err) }]. *)
Definition orFail {A} (m : M A) (wrap : string → string) : M A :=
  λ st, match m st with
        | (Ok a, st') => (Ok a, st')
        | (Err msg, st') => (Err (wrap msg), st')
        end.
Definition when (b : bool) (m : M unit) : M unit := if b then m else ret tt.

Notation "'do' x <- m ; k" := (bind m (λ x, k))
  (at level 10, x name, m at level 100, k at level 200).
Notation "'do' ' pat <- m ; k" := (bind m (λ x, match x with pat => k end))
  (at level 10, pat pattern, m at level 100, k at level 200).

(** [for i, x := range l { if err := body i x; err != nil { return err } }]. *)
Definition rangeLoopE {A} (body : nat → A → M unit) : nat → list A → M unit :=
  fix loop (i : nat) (l : list A) : M unit :=
    match l with
    | [] => ret tt
    | x :: rest => do _ <- body i x; loop (S i) rest
    end.

Section MutationPass.
Context `{Sprintf}.

(** What the remote workspace answers to the last request of a history:
    the unique ID of the cue, or an error. *)
Variable qlab : list Command → result string.

Definition request (c : Command) : M string :=
  λ st, let history := (issued st ++ [c])%list in
        (qlab history,
         {| cueListNames := cueListNames st; NumberToID := NumberToID st;
            CuesWithTargets := CuesWithTargets st; issued := history |}).

Definition createCueWithoutTarget (cueData : gomap) (cueNumber : string) : M string :=
  request (CreateCue cueData cueNumber).
Definition updateCueProperties (uniqueID : string) (cueData : gomap) : M unit :=
  do _ <- request (UpdateCue uniqueID cueData); ret tt.
Definition moveCueToParent (cueID parentCueID : string) : M unit :=
  do _ <- request (MoveCue cueID parentCueID); ret tt.
Definition moveCueToParentWithIndex (cueID parentCueID : string) (index : nat) : M unit :=
  do _ <- request (MoveCueAt cueID parentCueID index); ret tt.

(** [mapping.NumberToID[fullNumber] = uniqueID] under its guard. *)
Definition recordNumber (fullNumber uniqueID : string) : M unit :=
  λ st, (Ok tt,
         if bool_decide (fullNumber ≠ "") && bool_decide (uniqueID ≠ "") then
           {| cueListNames := cueListNames st;
              NumberToID := <[fullNumber := uniqueID]> (NumberToID st);
              CuesWithTargets := CuesWithTargets st; issued := issued st |}
         else st).

(** [q.cueListNames[cueName] = uniqueID]. *)
Definition recordListName (cueName uniqueID : string) : M unit :=
  λ st, (Ok tt,
         {| cueListNames := <[cueName := uniqueID]> (cueListNames st);
            NumberToID := NumberToID st;
            CuesWithTargets := CuesWithTargets st; issued := issued st |}).

(** [mapping.CuesWithTargets = append(mapping.CuesWithTargets, ...)]. *)
Definition recordTarget (uniqueID targetNumber : string) : M unit :=
  λ st, (Ok tt,
         {| cueListNames := cueListNames st; NumberToID := NumberToID st;
            CuesWithTargets := (CuesWithTargets st ++
              [{| UniqueID := uniqueID; TargetNumber := targetNumber |}])%list;
            issued := issued st |}).

(** Whether [id] is the ID of a known cue list. *)
Definition isExistingCueList (id : string) : M bool :=
  λ st, (Ok (bool_decide (map_Exists (λ _ existingID, existingID = id) (cueListNames st))), st).

Definition getListID (cueName : string) : M (option string) :=
  λ st, (Ok (cueListNames st !! cueName), st).

(** The change result the pass finds for a cue, with the key it was
    found under: by number first, else by position key, which exists
    only for [cueIndex >= 0]. *)
Definition lookupChange (changeResults : gmap string CueChangeResult)
    (fullNumber parentNumber cueType cueName : string) (cueIndex : Z)
    : option (string * CueChangeResult) :=
  let positionKey :=
    if bool_decide (fullNumber = "") && bool_decide (0 ≤ cueIndex)
    then positionKey parentNumber (Z.to_nat cueIndex) cueType cueName
    else "" in
  if bool_decide (fullNumber ≠ "") then
    (λ r, (fullNumber, r)) <$> changeResults !! fullNumber
  else if bool_decide (positionKey ≠ "") then
    (λ r, (positionKey, r)) <$> changeResults !! positionKey
  else None.

(** The key under which the parent looks up whether a child was skipped. *)
Definition childLookupKey (subCue : gomap) (fullNumber : string) (childIndex : nat) : string :=
  let childCueType := getString subCue "type" in
  let childCueName := getString subCue "name" in
  let childFullNumber := getString subCue "number" in
  if bool_decide (childFullNumber ≠ "") then childFullNumber
  else positionKey fullNumber childIndex childCueType childCueName.

(** The part of the method up to its sub-cues: the unique ID and
    whether the method goes on ([false] on the early returns). *)
Definition processOwnCue (cueData : gomap) (parentNumber parentUniqueID : string)
    (changeResults : gmap string CueChangeResult) (cueIndex : Z) : M (string * bool) :=
  let cueType := getString cueData "type" in
  let cueName := getString cueData "name" in
  do listID <- getListID cueName;
  let existingCueListID :=
    if bool_decide (cueType = "list") && bool_decide (cueName ≠ "")
    then default "" listID else "" in
  let fullNumber := fullNumber parentNumber (cueNumber cueData) in
  do ' (uniqueID, continue) <-
    match lookupChange changeResults fullNumber parentNumber cueType cueName cueIndex with
    | Some (lookupKey, changeResult) =>
        if bool_decide (Action changeResult = "skip") then
          do _ <- recordNumber fullNumber (ExistingID changeResult);
          ret (ExistingID changeResult, false)
        else if bool_decide (Action changeResult = "update") then
          let uniqueID := ExistingID changeResult in
          if bool_decide (uniqueID = "") then
            fail ("cannot update cue " +:+ lookupKey +:+ ": no existing ID provided")
          else
            do _ <- orFail (updateCueProperties uniqueID cueData)
                      (λ e, "failed to update cue " +:+ lookupKey +:+ ": " +:+ e);
            do _ <- recordNumber fullNumber uniqueID;
            ret (uniqueID, true)
        else
          do uniqueID <- orFail (createCueWithoutTarget cueData fullNumber)
                           (λ e, "failed to create cue " +:+ lookupKey +:+ ": " +:+ e);
          ret (uniqueID, true)
    | None =>
        if bool_decide (existingCueListID ≠ "") then
          do _ <- recordNumber fullNumber existingCueListID;
          ret (existingCueListID, false)
        else
          do uniqueID <- orFail (createCueWithoutTarget cueData fullNumber)
                           (λ e, "failed to create cue " +:+ fullNumber +:+ ": " +:+ e);
          ret (uniqueID, true)
    end;
  if negb continue then ret (uniqueID, false)
  else
    do _ <- when (bool_decide (cueType = "list") && bool_decide (cueName ≠ "")
                  && bool_decide (uniqueID ≠ ""))
              (recordListName cueName uniqueID);
    do _ <- recordNumber fullNumber uniqueID;
    do _ <- when (bool_decide (getString cueData "cueTargetNumber" ≠ "")
                  && bool_decide (uniqueID ≠ ""))
              (recordTarget uniqueID (getString cueData "cueTargetNumber"));
    do _ <- when (bool_decide (parentUniqueID ≠ "") && bool_decide (uniqueID ≠ ""))
              (do existing <- isExistingCueList parentUniqueID;
               when (negb existing)
                 (orFail (moveCueToParent uniqueID parentUniqueID)
                    (λ e, "failed to move cue " +:+ uniqueID +:+ " into parent " +:+
                          parentUniqueID +:+ ": " +:+ e)));
    ret (uniqueID, true).

(** What the parent does with a processed child: move it into place
    unless it was skipped or the parent is an existing cue list. *)
Definition placeChild (subCue : gomap) (fullNumber uniqueID childUniqueID : string)
    (changeResults : gmap string CueChangeResult) (childIndex : nat) : M unit :=
  when (bool_decide (childUniqueID ≠ ""))
    (let shouldSkipMove :=
       match changeResults !! childLookupKey subCue fullNumber childIndex with
       | Some childChangeResult => bool_decide (Action childChangeResult = "skip")
       | None => false
       end in
     when (negb shouldSkipMove)
       (do existing <- isExistingCueList uniqueID;
        when (negb existing)
          (orFail (moveCueToParentWithIndex childUniqueID uniqueID childIndex)
             (λ e, "failed to move child cue " +:+ childUniqueID +:+ " into parent " +:+
                   uniqueID +:+ " at index " +:+ GoString.fmt_d (Z.of_nat childIndex) +:+
                   ": " +:+ e)))).

(** The body of the loop over the sub-cues, with [recur] the method
    itself: an element that is not a map is skipped; an error of the
    child is returned, wrapped. *)
Definition processSubCue
    (recur : value → string → string → gmap string CueChangeResult → Z → M string)
    (fullNumber uniqueID : string) (changeResults : gmap string CueChangeResult)
    (childIndex : nat) (subCueData : value) : M unit :=
  match subCueData with
  | VMap subCue =>
      do childUniqueID <-
        orFail (recur subCueData fullNumber "" changeResults (Z.of_nat childIndex))
          (λ e, "error processing sub-cue " +:+ GoString.fmt_d (Z.of_nat childIndex) +:+
                ": " +:+ e);
      placeChild subCue fullNumber uniqueID childUniqueID changeResults childIndex
  | _ => ret tt
  end.

(** The method on [cueData] when it is a map (its callers pass nothing
    else). *)
Fixpoint processCue (cueData : value) (parentNumber parentUniqueID : string)
    (changeResults : gmap string CueChangeResult) (cueIndex : Z) {struct cueData} : M string :=
  match cueData with
  | VMap cue =>
      do ' (uniqueID, continue) <-
        processOwnCue cue parentNumber parentUniqueID changeResults cueIndex;
      if negb continue then ret uniqueID
      else
        let fullNumber := fullNumber parentNumber (cueNumber cue) in
        do _ <- withSubCues
          (λ subCues,
             when (bool_decide (uniqueID ≠ ""))
               (rangeLoopE (processSubCue processCue fullNumber uniqueID changeResults)
                  0 subCues))
          (ret tt) cue;
        ret uniqueID
  | _ => ret ""
  end.

Definition processCueListWithParentMappingAndChangeDetectionWithIndex
    (cueData : gomap) (parentNumber parentUniqueID : string)
    (changeResults : gmap string CueChangeResult) (cueIndex : Z) : M string :=
  processCue (VMap cueData) parentNumber parentUniqueID changeResults cueIndex.

Definition processCueListWithMappingAndChangeDetection
    (cueData : gomap) (parentNumber : string)
    (changeResults : gmap string CueChangeResult) : M unit :=
  do _ <- processCueListWithParentMappingAndChangeDetectionWithIndex
            cueData parentNumber "" changeResults (-1);
  ret tt.

(** The body of the loop of [transmitCueFileWithChangeDetection] over
    the top-level cues. *)
Definition transmitCue (changeResults : gmap string CueChangeResult)
    (i : nat) (cueAny : value) : M unit :=
  match cueAny with
  | VMap cueData =>
      orFail (processCueListWithMappingAndChangeDetection cueData "" changeResults)
        (λ e, "failed to process cue: " +:+ e)
  | _ => ret tt
  end.

(** That loop, before the cue targets are set. *)
Definition transmitCues (cuesData : list value)
    (changeResults : gmap string CueChangeResult) : M unit :=
  rangeLoopE (transmitCue changeResults) 0 cuesData.

End MutationPass.

(** ** The request/reply loop (osc.go) *)

(** How one attempt ends: the send fails, a reply arrives on the reply
    channel before the timer fires, or the timer fires first. *)
Inductive Attempt :=
  | SendFailed
  | Replied (result : list value)
  | TimedOut.

(** What an observer sees of a call. *)
Inductive Event :=
  | Sent (requestID : Z) (address : string) (arguments : list value)
  | WaitedSeconds (seconds : Z)
  | SleptMillis (millis : Z)
  | DisconnectNotified.

(** The fields of [Workspace] the loop reads and writes; [hasOnDisconnect]
    is [q.onDisconnect != nil]. *)
Record Connection := {
  maxRetries : Z;
  timeout : Z;
  requestCounter : Z;
  consecutiveErrors : Z;
  connected : bool;
  hasOnDisconnect : bool;
  trace : list Event
}.

(** The double quote byte, and a quoted string. *)
Definition dquote : string := String (ascii_of_nat 34) EmptyString.
Definition quoted (s : string) : string := dquote +:+ s +:+ dquote.

(** The payload returned when no reply came: the JSON object with
    [status] set to [error] and [error] to the timeout message. *)
Definition timeoutText : string :=
  "{" +:+ quoted "status" +:+ ": " +:+ quoted "error" +:+ ", " +:+
  quoted "error" +:+ ": " +:+ quoted "timeout waiting for reply from QLab" +:+ "}".

Definition timeoutReply : list value := [VString timeoutText].

Section SendWithRetry.

(** The outcome of the attempt made with a request ID. *)
Variable network : Z → Attempt.

(** [timeout := q.timeout; if timeout == 0 { timeout = 10 }]. *)
Definition effectiveTimeout (q : Connection) : Z :=
  if bool_decide (timeout q = 0) then 10 else timeout q.

Definition logEvent (e : Event) (q : Connection) : Connection :=
  {| maxRetries := maxRetries q; timeout := timeout q;
     requestCounter := requestCounter q; consecutiveErrors := consecutiveErrors q;
     connected := connected q; hasOnDisconnect := hasOnDisconnect q;
     trace := (trace q ++ [e])%list |}.

(** [q.requestCounter++]. *)
Definition nextRequest (q : Connection) : Connection :=
  {| maxRetries := maxRetries q; timeout := timeout q;
     requestCounter := requestCounter q + 1; consecutiveErrors := consecutiveErrors q;
     connected := connected q; hasOnDisconnect := hasOnDisconnect q;
     trace := trace q |}.

(** [q.consecutiveErrors = 0; q.wasConnected = true]. *)
Definition replyReceived (q : Connection) : Connection :=
  {| maxRetries := maxRetries q; timeout := timeout q;
     requestCounter := requestCounter q; consecutiveErrors := 0;
     connected := true; hasOnDisconnect := hasOnDisconnect q;
     trace := trace q |}.

(** [q.consecutiveErrors++], then the disconnect callback when the
    connection was up, two errors in a row were seen and a callback is
    set. *)
Definition countError (q : Connection) : Connection :=
  let errors := consecutiveErrors q + 1 in
  if connected q && bool_decide (2 ≤ errors) && hasOnDisconnect q then
    {| maxRetries := maxRetries q; timeout := timeout q;
       requestCounter := requestCounter q; consecutiveErrors := errors;
       connected := false; hasOnDisconnect := hasOnDisconnect q;
       trace := (trace q ++ [DisconnectNotified])%list |}
  else
    {| maxRetries := maxRetries q; timeout := timeout q;
       requestCounter := requestCounter q; consecutiveErrors := errors;
       connected := connected q; hasOnDisconnect := hasOnDisconnect q;
       trace := trace q |}.

(** The arguments of the message: [input] when it is not empty, then
    [args]. *)
Definition messageArguments (input : string) (args : list value) : list value :=
  ((if bool_decide (input ≠ "") then [VString input] else []) ++ args)%list.

(** The loop [for attempt := 0; attempt <= maxRetries; attempt++], with
    [remaining] the number of iterations its condition still allows. *)
Fixpoint sendLoop (address input : string) (args : list value)
    (remaining : nat) (attempt : Z) (q : Connection) : list value * Connection :=
  match remaining with
  | O => (timeoutReply, countError q)
  | S remaining =>
      let msg := messageArguments input args in
      let q := nextRequest q in
      let requestID := requestCounter q in
      match network requestID with
      | SendFailed => sendLoop address input args remaining (attempt + 1) q
      | Replied result => (result, replyReceived (logEvent (Sent requestID address msg) q))
      | TimedOut =>
          let q := logEvent (WaitedSeconds (effectiveTimeout q))
                     (logEvent (Sent requestID address msg) q) in
          if bool_decide (attempt < maxRetries q) then
            sendLoop address input args remaining (attempt + 1) (logEvent (SleptMillis 100) q)
          else (timeoutReply, countError q)
      end
  end.

Definition sendWithRetry (address input : string) (args : list value) (q : Connection)
    : list value * Connection :=
  sendLoop address input args (Z.to_nat (maxRetries q + 1)) 0 q.

End SendWithRetry.

(** ** The identifier of a remote cue and the values kept from the remote
    side (cue_mapping.go) *)
Section QLabUpdates.
Context `{Sprintf}.

(** [getQLabCueIdentifierWithPosition]: the number of the cue under its
    parent's prefix, else its position key, else the empty string. *)
Definition getQLabCueIdentifierWithPosition (cue : gomap) (parentNumber : string)
    (position : nat) : string :=
  let fullNumber := fullNumber parentNumber (cueNumber cue) in
  let cueName := getString cue "name" in
  let cueType := getString cue "type" in
  if decide (fullNumber ≠ "") then fullNumber
  else
    let positionKey := positionKey parentNumber position cueType cueName in
    if decide (cueType ≠ "" ∨ cueName ≠ "") then positionKey else "".

Definition getQLabCueIdentifier (cue : gomap) : string :=
  getQLabCueIdentifierWithPosition cue "" 0.

(** [if s, ok := cueMap[field].(string); ok { updates[field] = s }]. *)
Definition copyStringField (cueMap : gomap) (field : string)
    (updates : gmap string value) : gmap string value :=
  match mapGet cueMap field with
  | Some (VString s) => <[field := VString s]> updates
  | _ => updates
  end.

(** The [updates] of a chosen cue: its four updatable fields, where they
    hold strings. *)
Definition fieldUpdates (cueMap : gomap) : gmap string value :=
  copyStringField cueMap "colorName"
    (copyStringField cueMap "notes"
       (copyStringField cueMap "fileTarget"
          (copyStringField cueMap "name" ∅))).

(** The local [currentFullNumber] handed to the children of a cue. *)
Definition currentFullNumber (cueMap : gomap) (parentNumber : string) : string :=
  let currentFullNumber := cueNumber cueMap in
  if decide (parentNumber ≠ "" ∧ currentFullNumber ≠ "") then
    if negb (GoString.Contains currentFullNumber ".")
    then parentNumber +:+ "." +:+ currentFullNumber
    else currentFullNumber
  else currentFullNumber.

(** The body of the loop of [extractCueValuesFromArrayWithPosition] up to
    the recursive call; [chosenCues[cueNumber]] is false for a missing
    key. *)
Definition extractCueValue (cueMap : gomap) (parentNumber : string) (i : nat)
    (chosenCues : gmap string bool) (cueUpdates : gmap string (gmap string value))
    : gmap string (gmap string value) :=
  let cueNumber := getQLabCueIdentifierWithPosition cueMap parentNumber i in
  if bool_decide (cueNumber ≠ "") && default false (chosenCues !! cueNumber) then
    let updates := fieldUpdates cueMap in
    if bool_decide (0 < size updates)%nat then <[cueNumber := updates]> cueUpdates
    else cueUpdates
  else cueUpdates.

(** One iteration of that loop on the element [cueItem] at position [i],
    with the recursive call on its children. *)
Fixpoint extractCueValues (cueItem : value) (i : nat) (parentNumber : string)
    (chosenCues : gmap string bool) (cueUpdates : gmap string (gmap string value))
    {struct cueItem} : gmap string (gmap string value) :=
  match cueItem with
  | VMap cueMap =>
      let cueUpdates := extractCueValue cueMap parentNumber i chosenCues cueUpdates in
      let full := currentFullNumber cueMap parentNumber in
      withSubCues
        (λ children,
           rangeLoop (λ j child u, extractCueValues child j full chosenCues u) 0 children
             cueUpdates)
        cueUpdates cueMap
  | _ => cueUpdates
  end.

Definition extractCueValuesFromArrayWithPosition (cues : list value) (parentNumber : string)
    (chosenCues : gmap string bool) (cueUpdates : gmap string (gmap string value))
    : gmap string (gmap string value) :=
  rangeLoop (λ i cueItem u, extractCueValues cueItem i parentNumber chosenCues u) 0 cues
    cueUpdates.

(** The body of the loop of [extractQLabCueValues] over [data]: each cue
    list is walked on its own, from position 0 and without a parent. *)
Definition extractCueListValues (chosenCues : gmap string bool)
    (cueUpdates : gmap string (gmap string value)) (cueListData : value)
    : gmap string (gmap string value) :=
  match cueListData with
  | VMap cueList =>
      match mapGet cueList "cues" with
      | Some (VArray cues) =>
          extractCueValuesFromArrayWithPosition cues "" chosenCues cueUpdates
      | _ => cueUpdates
      end
  | _ => cueUpdates
  end.

(** [extractQLabCueValues]; its error result is always nil. *)
Definition extractQLabCueValues (qlabData : gomap) (chosenCues : gmap string bool)
    (cueUpdates : gmap string (gmap string value)) : gmap string (gmap string value) :=
  match mapGet qlabData "data" with
  | Some (VArray data) => foldl (extractCueListValues chosenCues) cueUpdates data
  | _ => cueUpdates
  end.

(** [ExtractQLabUpdates]; its error result is always nil, as that of
    [extractQLabCueValues] is. The length of a nil map is 0. *)
Definition ExtractQLabUpdates (comparison : ThreeWayComparison)
    : gmap string (gmap string value) :=
  match CurrentQLabData comparison with
  | Some currentQLabData =>
      if bool_decide (size (QLabChosenCues comparison) = 0%nat)
         || bool_decide (length currentQLabData = 0%nat)
      then ∅
      else extractQLabCueValues currentQLabData (QLabChosenCues comparison) ∅
  | None => ∅
  end.

End QLabUpdates.

(** ** The unique IDs and the numbers of the remote cues (source_update_test.go) *)

(** One iteration of the loop of [extractCueIDs] on the element
    [cueData], appending to [ids]. *)
Fixpoint cueIDs (cueData : value) (ids : list string) {struct cueData} : list string :=
  match cueData with
  | VMap cue =>
      let ids :=
        match mapGet cue "uniqueID" with
        | Some (VString uniqueID) => (ids ++ [uniqueID])%list
        | _ => ids
        end in
      withSubCues
        (λ children,
           (ids ++ rangeLoop (λ _ child childIDs, cueIDs child childIDs) 0 children [])%list)
        ids cue
  | _ => ids
  end.

Definition extractCueIDs (cues : list value) : list string :=
  rangeLoop (λ _ cueData ids, cueIDs cueData ids) 0 cues [].

Section CueNumbers.
Context `{Sprintf}.

(** The part of the loop of [indexCueNumbers] before the recursive call,
    on the tracked numbers and the count. *)
Definition indexCueNumber (cue : gomap) (tracked : gmap string string * nat)
    : gmap string string * nat :=
  match mapGet cue "uniqueID" with
  | Some (VString uniqueID) =>
      let cueNumber := cueNumber cue in
      if decide (cueNumber ≠ "") then (<[cueNumber := uniqueID]> tracked.1, S tracked.2)
      else tracked
  | _ => tracked
  end.

(** One iteration of that loop on the element [cueData]; the count of
    the children is added to the count. *)
Fixpoint indexCueNumbersIn (cueData : value) (tracked : gmap string string * nat)
    {struct cueData} : gmap string string * nat :=
  match cueData with
  | VMap cue =>
      let tracked := indexCueNumber cue tracked in
      withSubCues
        (λ children,
           rangeLoop (λ _ child t, indexCueNumbersIn child t) 0 children tracked)
        tracked cue
  | _ => tracked
  end.

(** [indexCueNumbers]: [q.cueNumbers] after the call, and the count it
    returns. *)
Definition indexCueNumbers (cues : list value) (cueNumbers : gmap string string)
    : gmap string string * nat :=
  rangeLoop (λ _ cueData t, indexCueNumbersIn cueData t) 0 cues (cueNumbers, 0%nat).

End CueNumbers.

(** ** Cue number conflicts (source_update_test.go) *)

(** The errors of [handleCueNumberConflict]: one made by [fmt.Errorf],
    or a [*CueNumberConflictError]. *)
Inductive NumberError :=
  | ErrorString (msg : string)
  | CueNumberConflictError (CueNumber ExistingID NewCueID : string).

Section NumberConflicts.

(** [q.clearCueNumber(cueID)]: the error it returns, if any. *)
Variable clearCueNumber : string → option string.

(** [handleCueNumberConflict]: the error, nil when there is none, and
    [q.cueNumbers] after the call. *)
Definition handleCueNumberConflict (forceCueNumbers : bool)
    (cueNumbers : gmap string string) (newCueID cueNumber : string)
    : option NumberError * gmap string string :=
  match cueNumbers !! cueNumber with
  | None => (None, cueNumbers)
  | Some existingID =>
      if bool_decide (existingID = newCueID) then (None, cueNumbers)
      else if forceCueNumbers then
        match clearCueNumber existingID with
        | Some err =>
            (Some (ErrorString ("failed to clear conflicting cue number: " +:+ err)),
             cueNumbers)
        | None => (None, delete cueNumber cueNumbers)
        end
      else
        (Some (CueNumberConflictError cueNumber existingID newCueID), cueNumbers)
  end.

End NumberConflicts.

(** ** OSC addresses (cue_mapping.go, messages.go) *)

Record OSCAddressBuilder := { workspaceID : string }.

(** The fields of [Workspace] that [GetAddress] reads; a nil
    [addressBuilder] is [None]. *)
Record Addressing := {
  workspace_id : string;
  addressBuilder : option OSCAddressBuilder
}.

Definition writeOps : list string :=
  ["/new"; "/move"; "/delete"; "/cue_id/"; "/cueList_id/"].

Definition readOnlyOps : list string :=
  ["/connect"; "/alwaysReply"; "/cueLists"; "/cues"; "/basePath"].

Definition isWriteOperation (address : string) : bool :=
  if existsb (GoString.Contains address) writeOps then true
  else if existsb (GoString.Contains address) readOnlyOps then false
  else true.

Definition applicationLevelCommands : list string :=
  ["/connect"; "/disconnect"; "/alwaysReply"; "/version"; "/updates"; "/udpReplyPort";
   "/workspaces"].

Definition GetAddress (q : Addressing) (msg : string) : string :=
  match addressBuilder q with
  | None => ""
  | Some _ =>
      if negb (String.prefix "/" msg) then msg
      else if String.prefix "/workspace/" msg then msg
      else if existsb (λ cmd, String.prefix cmd msg) applicationLevelCommands then msg
      else if decide (workspace_id q = "") then msg
      else "/workspace/" +:+ workspace_id q +:+ msg
  end.

Definition CuePropertyMap : gmap string string :=
  list_to_map
    [("name", "name"); ("number", "number"); ("type", "type"); ("file", "fileTarget");
     ("fileTarget", "fileTarget"); ("cueTarget", "cueTargetID");
     ("infiniteLoop", "infiniteLoop"); ("mode", "mode")].

Definition BuildCuePropertyAddress (b : OSCAddressBuilder) (uniqueID property : string)
    : string :=
  if decide (workspaceID b = "") then ""
  else
    let oscProperty := default property (CuePropertyMap !! property) in
    "/workspace/" +:+ workspaceID b +:+ "/cue_id/" +:+ uniqueID +:+ "/" +:+ oscProperty.

Definition BuildReplyAddress (requestAddress : string) : string :=
  "/reply" +:+ requestAddress.

(** ** Restoring skipped cues in the state written to the cache (part_005) *)
Section SkippedCues.
Context `{Sprintf}.

(** The body of the loop of [replaceWorkspaceCueWithCached] over the cue
    lists: the cue list with the cue replaced, if it was found in it. *)
Definition replaceInCueList (cachedCue : gomap) (cueNumber : string)
    (cueListInterface : value) : option value :=
  match cueListInterface with
  | VMap cueList =>
      VMap <$> replaceInSubCues
        (λ cues, findAndReplaceCueInArray cues cachedCue cueNumber "") cueList
  | _ => None
  end.

(** The map [m] with the first entry of key [k] holding [v]. *)
Fixpoint mapSet (m : gomap) (k : string) (v : value) : gomap :=
  match m with
  | [] => [(k, v)]
  | (k', x) :: m' => if decide (k' = k) then (k, v) :: m' else (k', x) :: mapSet m' k v
  end.

(** [replaceWorkspaceCueWithCached]: the workspace after the
    replacement, which the code makes in place, or the error. *)
Definition replaceWorkspaceCueWithCached (workspace cachedCue : gomap) (cueNumber : string)
    : result gomap :=
  match mapGet workspace "data" with
  | Some (VArray data) =>
      match replaceFirst (replaceInCueList cachedCue cueNumber) data with
      | Some data' => Ok (mapSet workspace "data" (VArray data'))
      | None => Err ("cue " +:+ cueNumber +:+ " not found in workspace structure")
      end
  | _ => Err "no data array found in workspace"
  end.

(** The body of the loop of [writeCueFileToCache] over [CueResults]; an
    error of the replacement is logged and the workspace kept. *)
Definition preserveSkippedCue (originalCues : gmap string gomap) (cueNumber : string)
    (result : CueChangeResult) (currentWorkspace : gomap) : gomap :=
  if bool_decide (Action result = "skip")
     && bool_decide (Reason result = "User chose to skip this cue") then
    match originalCues !! cueNumber with
    | Some originalCue =>
        match replaceWorkspaceCueWithCached currentWorkspace originalCue cueNumber with
        | Ok workspace => workspace
        | Err _ => currentWorkspace
        end
    | None => currentWorkspace
    end
  else currentWorkspace.

(** The workspace state [writeCueFileToCache] writes: the state queried,
    with the cues the user skipped restored from [originalCache], the
    most recent cache file, when the comparison had a cache and the file
    loads. The loop ranges over a map, in the order [map_fold] gives. *)
Definition stateToCache (comparison : option ThreeWayComparison)
    (originalCache : result gomap) (currentWorkspace : gomap) : gomap :=
  match comparison with
  | Some comparison =>
      if HasCache comparison then
        match originalCache with
        | Ok originalCache =>
            map_fold (preserveSkippedCue (indexCuesFromWorkspace originalCache))
              currentWorkspace (CueResults comparison)
        | Err _ => currentWorkspace
        end
      else currentWorkspace
  | None => currentWorkspace
  end.

End SkippedCues.

(** ** Vocabulary of the statements *)

(** The float64 1.0 (which the literals [1.0] and [1.00000] both denote):
    mantissa [2^52], exponent [-52]. *)
Definition float_one : float64 := S754_finite false 4503599627370496 (-52).

(** The float [f] is finite and its value is the integer [n]:
    [±m · 2^e = n], stated without fractions. *)
Definition holdsInteger (f : float64) (n : Z) : Prop :=
  match f with
  | S754_zero _ => n = 0
  | S754_finite s m e =>
      (if s then - Z.pos m else Z.pos m) * 2 ^ Z.max 0 e = n * 2 ^ Z.max 0 (- e)
  | _ => False
  end.

Section Visits.
Context `{Sprintf}.

(** [visits cuesData parentNumber cue p i]: the walk of
    [indexCuesRecursively cuesData parentNumber] reaches the map [cue] as
    element [i] of an array it processes under the parent number [p]. *)
Inductive visits : list value → string → gomap → string → nat → Prop :=
  | visits_here cuesData parentNumber i cue :
      cuesData !! i = Some (VMap cue) →
      visits cuesData parentNumber cue parentNumber i
  | visits_below cuesData parentNumber k parent subCues cue p i :
      cuesData !! k = Some (VMap parent) →
      mapGet parent "cues" = Some (VArray subCues) →
      visits subCues (fullNumber parentNumber (cueNumber parent)) cue p i →
      visits cuesData parentNumber cue p i.

End Visits.

(** The sequence of events of [n] attempts to send [msg] to [address]
    that all time out, the first with request ID [id], each waiting [t]
    seconds, with a 100 ms pause between one attempt and the next. *)
Fixpoint timeoutTrace (address : string) (msg : list value) (n : nat) (id t : Z) : list Event :=
  match n with
  | O => []
  | S n' =>
      Sent id address msg :: WaitedSeconds t ::
        match n' with
        | O => []
        | S _ => SleptMillis 100 :: timeoutTrace address msg n' (id + 1) t
        end
  end.

(** Formatting verbs for the closed examples below, none of which prints
    a float with [%g] or a value with [%v]: the texts Go prints for NaN
    and for nil. *)
Definition exampleSprintf : Sprintf :=
  {| fmt_g := λ _, "NaN"; fmt_v := λ _, "<nil>" |}.

(** A cue with a number and a name, a source tree of cues, and a world
    that answers with a cache and a result of the full query. *)
Definition cueNamed (number name : string) : gomap :=
  [("number", VString number); ("name", VString name)].
Definition workspaceOf (cues : list gomap) : gomap :=
  [("cues", VArray (VMap <$> cues))].
Definition exampleWorld (cache current : result gomap) : World :=
  {| cacheData := cache; fullQuery := current; wasConnected := true;
     lightweightQuery := Err "timeout";
     scopeBasedComparison := λ _ _ _, Err "scope comparison unavailable" |}.

(** A result that says to update a cue for which no ID is known. *)
Definition updateWithoutID : CueChangeResult :=
  {| HasChanged := true; Reason := "QLab modified externally, reverting to source";
     ExistingID := ""; Action := "update"; ModifiedFields := ∅; CueID := "";
     FieldConflicts := ∅; ScopeData := None |}.

Definition exampleComparison (hasCache hasQLabData cacheMatchesQLab : bool) : ThreeWayComparison :=
  {| CueResults := {[ "1" := updateWithoutID ]};
     HasCache := hasCache; HasQLabData := hasQLabData;
     CacheMatchesQLab := cacheMatchesQLab;
     QLabChosenCues := ∅; QLabChosenFields := ∅; CurrentQLabData := None;
     WorkspaceScope := None; MergedResult := None |}.

Definition emptyPass : Pass :=
  {| cueListNames := ∅; NumberToID := ∅; CuesWithTargets := []; issued := [] |}.

(** A connection as [NewTestWorkspace] leaves it: no retries, no timeout
    set. *)
Definition freshConnection : Connection :=
  {| maxRetries := 0; timeout := 0; requestCounter := 0; consecutiveErrors := 0;
     connected := false; hasOnDisconnect := false; trace := [] |}.

(** * Properties *)

(** ** Strings *)
Module GoStringFacts.
Import GoString.

Lemma length_append (s t : string) :
  String.length (s +:+ t) = (String.length s + String.length t)%nat.
Proof. induction s as [|c s IH]; simpl; [done | by rewrite IH]. Qed.

Lemma length_ToLower (s : string) : String.length (ToLower s) = String.length s.
Proof. induction s as [|c s IH]; simpl; [done | by rewrite IH]. Qed.

Lemma append_nil_l (s : string) : "" +:+ s = s.
Proof. done. Qed.

Lemma append_eq_nil (s t : string) : s +:+ t = "" → s = "" ∧ t = "".
Proof. destruct s; simpl; [done | discriminate]. Qed.

Lemma Contains_cons (c : ascii) (s : string) :
  Contains (String c s) "." = bool_decide (c = "."%char) || Contains s ".".
Proof.
  change (Contains (String c s) ".")
    with (String.prefix "." (String c s) || Contains s ".").
  change (String.prefix "." (String c s))
    with (if ascii_dec "." c then String.prefix "" s else false).
  destruct (ascii_dec "." c) as [<-|Hne].
  - rewrite bool_decide_eq_true_2 by done. by destruct s.
  - rewrite bool_decide_eq_false_2 by congruence. done.
Qed.

Lemma string_of_uint_no_dot (d : Decimal.uint) :
  Contains (NilEmpty.string_of_uint d) "." = false.
Proof. induction d; try done; rewrite Contains_cons; by rewrite IHd. Qed.

(** A decimal integer has no decimal point. *)
Lemma fmt_d_no_dot (n : Z) : Contains (fmt_d n) "." = false.
Proof.
  unfold fmt_d, NilZero.string_of_int, NilZero.string_of_uint.
  destruct (Z.to_int n) as [d|d].
  - destruct d; first [done | exact (string_of_uint_no_dot _)].
  - rewrite Contains_cons. simpl.
    destruct d; first [done | exact (string_of_uint_no_dot _)].
Qed.

End GoStringFacts.

(** ** Induction over values and loops *)
Section ValueInduction.
Variable P : value → Prop.
Hypothesis Hnil : P VNil.
Hypothesis Hstring : ∀ s, P (VString s).
Hypothesis Hfloat : ∀ f, P (VFloat64 f).
Hypothesis Hint64 : ∀ n, P (VInt64 n).
Hypothesis Hint : ∀ n, P (VInt n).
Hypothesis Hbool : ∀ b, P (VBool b).
Hypothesis Harray : ∀ l, Forall P l → P (VArray l).
Hypothesis Hmap : ∀ m, Forall (λ kv, P kv.2) m → P (VMap m).

(** Structural induction with the hypotheses for the elements of an
    array and the entries of a map. *)
Fixpoint value_rect_nested (v : value) : P v :=
  match v with
  | VNil => Hnil
  | VString s => Hstring s
  | VFloat64 f => Hfloat f
  | VInt64 n => Hint64 n
  | VInt n => Hint n
  | VBool b => Hbool b
  | VArray l =>
      Harray l ((fix elements (l : list value) : Forall P l :=
                   match l with
                   | [] => @List.Forall_nil _ P
                   | x :: rest => @List.Forall_cons _ P x rest (value_rect_nested x) (elements rest)
                   end) l)
  | VMap m =>
      Hmap m ((fix entries (m : gomap) : Forall (λ kv, P kv.2) m :=
                 match m with
                 | [] => @List.Forall_nil _ (λ kv, P kv.2)
                 | kv :: rest =>
                     @List.Forall_cons _ (λ kv, P kv.2) kv rest (value_rect_nested kv.2) (entries rest)
                 end) m)
  end.
End ValueInduction.

Lemma withSubCues_mapGet {A} (k : list value → A) (d : A) (m : gomap) :
  withSubCues k d m =
  match mapGet m "cues" with
  | Some (VArray subCues) => k subCues
  | _ => d
  end.
Proof.
  induction m as [|[key x] m IH]; simpl; [done|].
  destruct (decide (key = "cues")); [by destruct x | done].
Qed.

(** The sub-cues of a map for which a property of maps holds inherit the
    property of its entries. *)
Lemma Forall_subCues (Q : value → Prop) (m : gomap) (subCues : list value) :
  Forall (λ kv, Q kv.2) m → mapGet m "cues" = Some (VArray subCues) → Q (VArray subCues).
Proof.
  induction 1 as [|[key x] m Hx _ IH]; simpl; [done|].
  destruct (decide (key = "cues")); [by intros [= ->] | done].
Qed.

Lemma rangeLoop_app {A St} (body : nat → A → St → St) (i : nat) (l1 l2 : list A) (s : St) :
  rangeLoop body i (l1 ++ l2) s =
  rangeLoop body (i + length l1) l2 (rangeLoop body i l1 s).
Proof.
  revert i s. induction l1 as [|x l1 IH]; intros i s; simpl.
  - by rewrite Nat.add_0_r.
  - rewrite IH. f_equal. lia.
Qed.

(** A loop whose body keeps [I] keeps [I]. *)
Lemma rangeLoop_invariant {A St} (I : St → Prop) (body : nat → A → St → St)
    (l : list A) (i : nat) (s : St) :
  Forall (λ x, ∀ j s, I s → I (body j x s)) l → I s → I (rangeLoop body i l s).
Proof.
  intros Hl. revert i s. induction Hl as [|x l Hx _ IH]; intros i s Hs; simpl; [done|].
  apply IH, Hx, Hs.
Qed.

(** The loop at the element of index [k]: the loop over what follows,
    run from the body at that element after the loop over what precedes. *)
Lemma rangeLoop_lookup {A St} (body : nat → A → St → St) (l : list A) (k : nat) (x : A) (s : St) :
  l !! k = Some x →
  rangeLoop body 0 l s =
  rangeLoop body (S k) (drop (S k) l) (body k x (rangeLoop body 0 (take k l) s)).
Proof.
  intros Hk.
  rewrite <-(take_drop_middle l k x Hk) at 1.
  rewrite rangeLoop_app. simpl.
  rewrite length_take_le by (apply lookup_lt_Some in Hk; lia).
  by replace (k + 1)%nat with (S k) by lia.
Qed.

(** ** The indexer *)
Section IndexerFacts.
Context `{Sprintf}.
Import GoString GoStringFacts.

Lemma fullNumber_empty (parentNumber number : string) :
  fullNumber parentNumber number = "" ↔ number = "".
Proof.
  unfold fullNumber. destruct (decide _) as [[Hp Hn]|Hno]; [|done].
  destruct (Contains number "."); [done|].
  split; [|done]. intros Heq.
  apply append_eq_nil in Heq as [? _]. done.
Qed.

Lemma fullNumber_root (number : string) : fullNumber "" number = number.
Proof. unfold fullNumber. destruct (decide _) as [[? ?]|]; done. Qed.

(** The position key is the parent number, [@], the index, and the
    lower-cased type and the name between brackets. *)
Lemma positionKey_format (parentNumber : string) (i : nat) (cueType cueName : string) :
  positionKey parentNumber i cueType cueName =
  parentNumber +:+ "@" +:+ fmt_d (Z.of_nat i) +:+ "[" +:+ ToLower cueType +:+ ":" +:+
    cueName +:+ "]".
Proof.
  unfold positionKey. destruct (decide (parentNumber ≠ "")) as [|Hp]; [done|].
  apply dec_stable in Hp. by subst.
Qed.

Lemma indexCue_mono (cue : gomap) (p : string) (i : nat) (idx : gmap string gomap) (k : string) :
  is_Some (idx !! k) → is_Some (indexCue cue p i idx !! k).
Proof.
  intros Hk. unfold indexCue. destruct (indexKey cue p i) as [key|]; [|done].
  rewrite lookup_insert. by case_decide.
Qed.

Lemma indexCue_key (cue : gomap) (p : string) (i : nat) (idx : gmap string gomap) (key : string) :
  indexKey cue p i = Some key → indexCue cue p i idx !! key = Some cue.
Proof. intros Hkey. unfold indexCue. rewrite Hkey. apply lookup_insert_eq. Qed.

(** Indexing never removes a key. *)
Lemma indexCueData_mono (v : value) :
  ∀ (i : nat) (p : string) (idx : gmap string gomap) (k : string),
    is_Some (idx !! k) → is_Some (indexCueData v i p idx !! k).
Proof.
  set (keeps := λ x : value, ∀ i p (idx : gmap string gomap) (k : string),
                 is_Some (idx !! k) → is_Some (indexCueData x i p idx !! k)).
  set (Q := λ x : value, keeps x ∧ ∀ l, x = VArray l → Forall keeps l).
  enough (Hboth : Q v) by apply Hboth.
  induction v as [| | | | | |l IH|m IH] using value_rect_nested;
    try (split; [by intros ? | by intros ?]).
  - split; [by intros ?|]. intros l' [= <-].
    eapply Forall_impl; [exact IH|]. by intros x [Hx _].
  - split; [|by intros ?]. intros i p idx k Hk. simpl.
    rewrite withSubCues_mapGet.
    destruct (mapGet m "cues") as [[| | | | | |subCues|]|] eqn:Hcues;
      try by apply indexCue_mono.
    pose proof (Forall_subCues Q m subCues IH Hcues) as [_ Hsub].
    specialize (Hsub subCues eq_refl).
    apply (rangeLoop_invariant (λ idx, is_Some (idx !! k))).
    + eapply Forall_impl; [exact Hsub|]. intros x Hx j s Hs. by apply Hx.
    + by apply indexCue_mono.
Qed.

Lemma indexCuesRecursively_mono (l : list value) (i : nat) (p : string)
    (idx : gmap string gomap) (k : string) :
  is_Some (idx !! k) →
  is_Some (rangeLoop (λ j x s, indexCueData x j p s) i l idx !! k).
Proof.
  intros Hk. apply (rangeLoop_invariant (λ idx, is_Some (idx !! k))); [|done].
  apply Forall_forall. intros x _ j s Hs. by apply indexCueData_mono.
Qed.

(** The iteration on a map writes the key of the map, and what follows
    keeps it. *)
Lemma indexCueData_key (cue : gomap) (p : string) (i : nat) (idx : gmap string gomap)
    (key : string) :
  indexKey cue p i = Some key → is_Some (indexCueData (VMap cue) i p idx !! key).
Proof.
  intros Hkey. simpl. rewrite withSubCues_mapGet.
  pose proof (indexCue_key cue p i idx key Hkey) as Hin.
  destruct (mapGet cue "cues") as [[| | | | | |subCues|]|]; try by eexists.
  apply indexCuesRecursively_mono. by eexists.
Qed.

(** Every key written while walking the sub-cues of a visited cue is in
    the final index. *)
Lemma visits_indexed (cuesData : list value) (parentNumber : string) (cue : gomap)
    (p : string) (i : nat) (key : string) :
  visits cuesData parentNumber cue p i →
  indexKey cue p i = Some key →
  ∀ idx, is_Some (indexCuesRecursively cuesData parentNumber idx !! key).
Proof.
  intros Hvisit Hkey.
  induction Hvisit as [cuesData parentNumber i cue Hi
                      |cuesData parentNumber k parent subCues cue p i Hk Hsub _ IH];
    intros idx; unfold indexCuesRecursively.
  - rewrite (rangeLoop_lookup _ _ _ _ _ Hi).
    apply indexCuesRecursively_mono. by apply indexCueData_key.
  - rewrite (rangeLoop_lookup _ _ _ _ _ Hk).
    apply indexCuesRecursively_mono.
    simpl. rewrite withSubCues_mapGet, Hsub.
    apply (IH Hkey).
Qed.

End IndexerFacts.

Section IdentityKeys.
Context `{Sprintf}.
Import GoString GoStringFacts.

Lemma wholeUpTo999_holdsInteger (f : float64) (n : Z) :
  0 ≤ n ≤ 999 → holdsInteger f n → wholeUpTo999 f = Some n.
Proof.
  intros Hn Hf. destruct f as [s|s| |s m e]; simpl in *; try done.
  - by subst.
  - destruct s.
    + assert (0 < 2 ^ Z.max 0 e) by (apply Z.pow_pos_nonneg; lia).
      assert (0 ≤ 2 ^ Z.max 0 (- e)) by (apply Z.pow_nonneg; lia). nia.
    + destruct (Z.leb_spec 0 e) as [He|He].
      * rewrite Z.max_r, Z.max_l in Hf by lia. rewrite Z.pow_0_r, Z.mul_1_r in Hf.
        rewrite Hf. destruct (Z.leb_spec n 999); [done | lia].
      * rewrite Z.max_l, Z.max_r in Hf by lia. rewrite Z.pow_0_r, Z.mul_1_r in Hf.
        assert (0 < 2 ^ (- e)) by (apply Z.pow_pos_nonneg; lia).
        rewrite Hf, Z.mod_mul, Z.div_mul by lia. simpl.
        destruct (Z.leb_spec n 999); [done | lia].
Qed.

Lemma holdsInteger_wholeUpTo999 (f : float64) (n : Z) :
  wholeUpTo999 f = Some n → 0 ≤ n ≤ 999 ∧ holdsInteger f n.
Proof.
  destruct f as [s|s| |s m e]; simpl; try done.
  - intros [= <-]. split; [lia | done].
  - destruct s; [done|].
    destruct (Z.leb_spec 0 e) as [He|He].
    + destruct (Z.leb_spec (Z.pos m * 2 ^ e) 999) as [Hle|]; [|done].
      intros [= <-]. assert (0 < 2 ^ e) by (apply Z.pow_pos_nonneg; lia).
      split; [nia|]. rewrite Z.max_r, Z.max_l by lia. by rewrite Z.pow_0_r, Z.mul_1_r.
    + assert (0 < 2 ^ (- e)) by (apply Z.pow_pos_nonneg; lia).
      destruct (Z.eqb_spec (Z.pos m mod 2 ^ (- e)) 0) as [Hmod|]; [|done].
      destruct (Z.leb_spec (Z.pos m / 2 ^ (- e)) 999) as [Hle|]; [|done].
      intros [= <-]. split.
      * split; [apply Z.div_pos; lia | done].
      * rewrite Z.max_l, Z.max_r by lia. rewrite Z.pow_0_r, Z.mul_1_r.
        rewrite (Z.div_mod (Z.pos m) (2 ^ (- e))) at 1 by lia. lia.
Qed.

(** C5. The identity key of a cue whose number is the string "1.0" or
    the float 1.0 (written [1.0] or [1.00000]) is "1.0", under any parent,
    and that of a top-level cue whose number is the integer 3 is "3". In general a float holding an
    integer of [0, 999] is printed as that integer with one decimal
    ([.0]), any other float as [%g] prints it, and an integer in decimal
    with no decimal point. The three trees of a comparison are indexed by
    the one function [indexCuesFromWorkspace]. *)
Theorem identity_key_numeric_format :
  (∀ rest parentNumber i,
     indexKey (("number", VString "1.0") :: rest) parentNumber i = Some "1.0") ∧
  (∀ rest parentNumber i,
     indexKey (("number", VFloat64 float_one) :: rest) parentNumber i = Some "1.0") ∧
  (∀ rest i, indexKey (("number", VInt 3) :: rest) "" i = Some "3") ∧
  (∀ f n, 0 ≤ n ≤ 999 → holdsInteger f n →
     formatNumber (VFloat64 f) =
     (match f with S754_zero true => "-" | _ => "" end) +:+ fmt_d n +:+ ".0") ∧
  (∀ f, (∀ n, 0 ≤ n ≤ 999 → ¬ holdsInteger f n) → formatNumber (VFloat64 f) = fmt_g f) ∧
  (∀ n, formatNumber (VInt n) = fmt_d n ∧ formatNumber (VInt64 n) = fmt_d n ∧
        Contains (fmt_d n) "." = false) ∧
  (∀ source cached current,
     cueIndexes source (Some cached) (Some current) =
     (indexCuesFromWorkspace source, indexCuesFromWorkspace cached,
      indexCuesFromWorkspace current)).
Proof.
  assert (∀ parentNumber, fullNumber parentNumber "1.0" = "1.0") as Hdot.
  { intros parentNumber. unfold fullNumber. by destruct (decide _). }
  repeat split; try done.
  - intros rest parentNumber i. unfold indexKey.
    change (cueNumber (("number", VString "1.0") :: rest)) with "1.0". by rewrite Hdot.
  - intros rest parentNumber i. unfold indexKey.
    change (cueNumber (("number", VFloat64 float_one) :: rest)) with "1.0". by rewrite Hdot.
  - intros f n Hn Hf. simpl. by rewrite (wholeUpTo999_holdsInteger f n Hn Hf).
  - intros f Hf. simpl. destruct (wholeUpTo999 f) as [n|] eqn:Hw; [|done].
    apply holdsInteger_wholeUpTo999 in Hw as [Hn Hint]. by destruct (Hf n Hn).
  - apply fmt_d_no_dot.
Qed.


End IdentityKeys.

Lemma identity_key_numeric_format_witness :
  formatNumber (H:=exampleSprintf) (VFloat64 (S754_finite false 3 1)) = "6.0".
Proof.
  destruct (identity_key_numeric_format (H:=exampleSprintf)) as (_ & _ & _ & Hwhole & _).
  apply (Hwhole (S754_finite false 3 1) 6); [lia | reflexivity].
Defined.



(** ** The cache-preservation identifier against the indexer *)
Section IdentifierMismatch.
Context `{Sprintf}.
Import GoString GoStringFacts.

Lemma extractCueIdentifier_numbered (cue : gomap) (parentNumber : string) :
  cueNumber cue ≠ "" →
  extractCueIdentifier cue parentNumber = fullNumber parentNumber (cueNumber cue).
Proof.
  intros Hn. unfold extractCueIdentifier.
  rewrite decide_False; [done|]. by rewrite fullNumber_empty.
Qed.

Lemma extractCueIdentifier_unnumbered (cue : gomap) (parentNumber : string) :
  cueNumber cue = "" →
  extractCueIdentifier cue parentNumber =
  "[" +:+ getString cue "type" +:+ ":" +:+ getString cue "name" +:+ "]".
Proof.
  intros Hn. unfold extractCueIdentifier.
  rewrite decide_True; [done|]. by rewrite fullNumber_empty.
Qed.

(** A bracketed identifier is shorter than any position key of the same
    type and name. *)
Lemma bracketed_shorter (cueType cueName p : string) (i : nat) :
  (String.length ("[" +:+ cueType +:+ ":" +:+ cueName +:+ "]")
   < String.length (positionKey p i cueType cueName))%nat.
Proof.
  rewrite positionKey_format. rewrite !length_append, length_ToLower. simpl. lia.
Qed.

Lemma replaceFirst_None {A} (f : A → option A) (l : list A) :
  Forall (λ x, f x = None) l → replaceFirst f l = None.
Proof. induction 1 as [|x l Hx _ IH]; simpl; [done|]. by rewrite Hx, IH. Qed.

Lemma replaceInSubCues_None (f : list value → option (list value)) (m : gomap) :
  (∀ l, mapGet m "cues" = Some (VArray l) → f l = None) →
  replaceInSubCues f m = None.
Proof.
  induction m as [|[key x] m IH]; simpl; [done|].
  destruct (decide (key = "cues")) as [->|Hne]; intros Hf.
  - destruct x; try done. by rewrite Hf.
  - by rewrite IH.
Qed.

(** What the walk reaches in one element of an array it reaches in the
    array. *)
Lemma visits_element (l : list value) (k : nat) (x : value) (pn : string)
    (c : gomap) (p : string) (j : nat) :
  l !! k = Some x → visits [x] pn c p j → ∃ j', visits l pn c p j'.
Proof.
  intros Hk Hvisit. inversion Hvisit; subst;
    match goal with
    | Hi : [x] !! ?i = Some _ |- _ => destruct i; [injection Hi as ->|done]
    end.
  - exists k. by apply visits_here.
  - eexists. by eapply visits_below.
Qed.

(** A position key whose parent prefix does not begin with a bracket is
    the identifier of no cue without a number. *)
Lemma extractCueIdentifier_not_position (cue : gomap) (parentNumber p : string) (i : nat)
    (cueType cueName : string) :
  cueNumber cue = "" →
  String.prefix "[" p = false →
  extractCueIdentifier cue parentNumber ≠ positionKey p i cueType cueName.
Proof.
  intros Hn Hp. rewrite extractCueIdentifier_unnumbered, positionKey_format by done.
  destruct p as [|c p]; [discriminate|]. simpl in *.
  destruct (ascii_dec "[" c) as [<-|Hne]; [by destruct p|].
  intros [= Heq]. congruence.
Qed.

(** In a tree where no cue has a number the search finds no such key. *)
Lemma findAndReplaceCue_unnumbered (v : value) :
  ∀ (pn : string) (cached : gomap) (p : string) (i : nat) (cueType cueName fp : string),
    (∀ c p' j, visits [v] pn c p' j → cueNumber c = "") →
    String.prefix "[" p = false →
    findAndReplaceCue v cached (positionKey p i cueType cueName) fp = None.
Proof.
  set (misses := λ x : value,
    ∀ (pn : string) (cached : gomap) (p : string) (i : nat) (cueType cueName fp : string),
      (∀ c p' j, visits [x] pn c p' j → cueNumber c = "") →
      String.prefix "[" p = false →
      findAndReplaceCue x cached (positionKey p i cueType cueName) fp = None).
  set (Q := λ x : value, misses x ∧ ∀ l, x = VArray l → Forall misses l).
  enough (Hboth : Q v) by apply Hboth.
  induction v as [| | | | | |l IH|m IH] using value_rect_nested;
    try (split; [by intros ? | by intros ?]).
  - split; [by intros ?|]. intros l' [= <-].
    eapply Forall_impl; [exact IH|]. by intros x [Hx _].
  - split; [|by intros ?]. intros pn cached p i cueType cueName fp Hall Hp. simpl.
    assert (cueNumber m = "") as Hm by (apply (Hall m pn 0%nat); by apply visits_here).
    rewrite decide_False by by apply extractCueIdentifier_not_position.
    rewrite replaceInSubCues_None; [done|]. intros subCues Hcues.
    pose proof (Forall_subCues Q m subCues IH Hcues) as [_ Hsub].
    specialize (Hsub subCues eq_refl).
    apply replaceFirst_None. apply Forall_lookup. intros k x Hk.
    rewrite Forall_lookup in Hsub.
    apply (Hsub k x Hk (fullNumber pn (cueNumber m))); [|done].
    intros c p' j Hvisit.
    destruct (visits_element subCues k x _ c p' j Hk Hvisit) as [j' Hvisit'].
    apply (Hall c p' j'). by eapply (visits_below _ _ 0).
Qed.


End IdentifierMismatch.


(** ** The field comparator *)
Section ComparatorFacts.
Context `{Sprintf}.
Import GoString.

(** A loop that writes [g p] under [p] for each [p] of a list. *)
Lemma foldl_insert_lookup {A} (g : string → option A) (props : list string)
    (acc : gmap string A) (field : string) :
  foldl (λ d p, match g p with Some x => <[p := x]> d | None => d end) acc props !! field =
  if decide (field ∈ props)
  then match g field with Some x => Some x | None => acc !! field end
  else acc !! field.
Proof.
  revert acc. induction props as [|p props IH]; intros acc; simpl.
  - done.
  - rewrite IH. destruct (decide (field = p)) as [->|Hne].
    + rewrite (decide_True (P := p ∈ p :: props)) by set_solver.
      destruct (g p) as [x|] eqn:Hg.
      * rewrite lookup_insert_eq. by destruct (decide _).
      * by destruct (decide _).
    + assert (match g p with Some x => <[p := x]> acc | None => acc end !! field
              = acc !! field) as ->.
      { destruct (g p); [by rewrite lookup_insert_ne | done]. }
      destruct (decide (field ∈ props)).
      * by rewrite decide_True by set_solver.
      * by rewrite decide_False by set_solver.
Qed.

Ltac is_literal s :=
  lazymatch s with
  | String _ _ => idtac
  | EmptyString => idtac
  end.

(** Decides the tests of the goal that compare two string literals. *)
Ltac eval_literal_tests :=
  repeat match goal with
  | |- context [bool_decide (?x = ?y)] =>
      is_literal x; is_literal y;
      first [ rewrite (bool_decide_eq_true_2 (x = y)) by reflexivity
            | rewrite (bool_decide_eq_false_2 (x = y)) by discriminate ]
  end;
  cbn [andb orb negb].

Lemma comparePropertyValues_policy (field a b : string) :
  field ∈ allProperties →
  comparePropertyValues field a b = bool_decide (policyEquivalent field a b).
Proof.
  intros Hfield. unfold allProperties in Hfield.
  repeat (apply elem_of_cons in Hfield as [->|Hfield]); [..|by apply elem_of_nil in Hfield];
    unfold comparePropertyValues, EqualFold; eval_literal_tests;
    repeat case_bool_decide; simplify_eq/=; try done;
    match goal with
    | Hp : policyEquivalent _ _ _ |- _ => unfold policyEquivalent in Hp; naive_solver
    | Hn : ¬ policyEquivalent _ _ _ |- _ => destruct Hn; unfold policyEquivalent; by auto 10
    end.
Qed.

Lemma skip_test_policy (cue1 cue2 : gomap) (field : string) :
  (bool_decide (field = "fileTarget") || bool_decide (field = "cueTargetNumber"))
    && (negb (hasKey cue1 field) || negb (hasKey cue2 field))
  = bool_decide (skippedAsUndefined cue1 cue2 field).
Proof.
  unfold hasKey, skippedAsUndefined.
  repeat case_bool_decide; simpl; try done; tauto.
Qed.

Lemma propertyDifference_policy (cue1 cue2 : gomap) (field : string) :
  field ∈ allProperties →
  propertyDifference cue1 cue2 field = policyDifference cue1 cue2 field.
Proof.
  intros Hfield. unfold propertyDifference, policyDifference, fmt_diff.
  rewrite decide_True by done.
  rewrite skip_test_policy, comparePropertyValues_policy by done.
  set (a := normalizeProperty (mapIndex cue1 field)).
  set (b := normalizeProperty (mapIndex cue2 field)).
  destruct (decide (skippedAsUndefined cue1 cue2 field)) as [Hskip|Hskip].
  - rewrite (bool_decide_eq_true_2 (skippedAsUndefined cue1 cue2 field)) by done.
    by destruct (_ && _).
  - rewrite (bool_decide_eq_false_2 (skippedAsUndefined cue1 cue2 field)) by done.
    destruct (decide (policyEquivalent field a b)) as [Heq|Hne].
    + rewrite (bool_decide_eq_true_2 (policyEquivalent field a b)) by done.
      by destruct (_ && _).
    + rewrite (bool_decide_eq_false_2 (policyEquivalent field a b)) by done. simpl.
      destruct (bool_decide (a = "") && bool_decide (b = "")) eqn:Hempty; [|done].
      apply andb_true_iff in Hempty as [Ha%bool_decide_eq_true Hb%bool_decide_eq_true].
      destruct Hne. left. congruence.
Qed.

(** C4. The detailed comparator reports a field exactly when the
    comparison policy does, and as the policy words it: only the nine
    fields of [allProperties] are compared; [armed] and [flagged] are never
    reported; [duration] takes "0" and "" for equal, [type] compares
    without regard to case, [colorName] takes "" and "none" for equal,
    [fileTarget] compares two non-empty values by base name, and
    [fileTarget] and [cueTargetNumber] are compared only when both bags
    define the key; every other pair of different values is reported
    under the name of the field as ['old' -> 'new']. *)
Theorem comparator_field_policy (cue1 cue2 : gomap) :
  (∀ field, compareCuePropertiesDetailed cue1 cue2 !! field = policyDifference cue1 cue2 field) ∧
  (∀ field, field ∉ allProperties → compareCuePropertiesDetailed cue1 cue2 !! field = None) ∧
  compareCuePropertiesDetailed cue1 cue2 !! "armed" = None ∧
  compareCuePropertiesDetailed cue1 cue2 !! "flagged" = None.
Proof.
  assert (∀ field, compareCuePropertiesDetailed cue1 cue2 !! field
                   = policyDifference cue1 cue2 field) as Hpolicy.
  { intros field. unfold compareCuePropertiesDetailed.
    rewrite (foldl_insert_lookup (propertyDifference cue1 cue2)), lookup_empty.
    destruct (decide (field ∈ allProperties)) as [Hin|Hout].
    - rewrite propertyDifference_policy by done. by destruct (policyDifference _ _ _).
    - unfold policyDifference. by rewrite decide_False. }
  split; [done|]. split; [|split].
  - intros field Hout. rewrite Hpolicy. unfold policyDifference. by rewrite decide_False.
  - rewrite Hpolicy. unfold policyDifference.
    destruct (decide _); [|done]. destruct (decide _); [done|].
    rewrite decide_True; [done|]. unfold policyEquivalent. auto.
  - rewrite Hpolicy. unfold policyDifference.
    destruct (decide _); [|done]. destruct (decide _); [done|].
    rewrite decide_True; [done|]. unfold policyEquivalent. auto.
Qed.

End ComparatorFacts.

(** The cases the specification lists for the policy. *)
Example comparator_armed :
  compareCuePropertiesDetailed (H:=exampleSprintf)
    [("armed", VString "true")] [("armed", VString "")] = ∅.
Proof. by vm_compute. Qed.

Example comparator_colorName :
  compareCuePropertiesDetailed (H:=exampleSprintf)
    [("colorName", VString "")] [("colorName", VString "none")] = ∅.
Proof. by vm_compute. Qed.

Example comparator_duration :
  compareCuePropertiesDetailed (H:=exampleSprintf)
    [("duration", VString "0")] [("duration", VString "")] = ∅.
Proof. by vm_compute. Qed.

Example comparator_type :
  compareCuePropertiesDetailed (H:=exampleSprintf)
    [("type", VString "Audio")] [("type", VString "audio")] = ∅.
Proof. by vm_compute. Qed.

Example comparator_name :
  compareCuePropertiesDetailed (H:=exampleSprintf)
    [("name", VString "old")] [("name", VString "new")] = {[ "name" := "'old' -> 'new'" ]}.
Proof. by vm_compute. Qed.

Example comparator_fileTarget_directory :
  compareCuePropertiesDetailed (H:=exampleSprintf)
    [("fileTarget", VString "/shows/a/rain.wav")] [("fileTarget", VString "audio/rain.wav")] = ∅.
Proof. by vm_compute. Qed.

Example comparator_fileTarget_empty :
  compareCuePropertiesDetailed (H:=exampleSprintf)
    [("fileTarget", VString "")] [("fileTarget", VString "rain.wav")]
  = {[ "fileTarget" := "'' -> 'rain.wav'" ]}.
Proof. by vm_compute. Qed.

Example comparator_fileTarget_undefined :
  compareCuePropertiesDetailed (H:=exampleSprintf)
    [("fileTarget", VString "rain.wav")] [("name", VString "")] = ∅.
Proof. by vm_compute. Qed.

(** ** The three-way comparison *)
Section ThreeWayFacts.
Context `{Sprintf}.

(** What a result says to do, apart from the scope data linked to it. *)
Local Abbreviation verdict :=
  (λ r : CueChangeResult, (Action r, Reason r, ModifiedFields r, HasChanged r, ExistingID r)).

Lemma linkScope_verdict (cueResults : gmap string CueChangeResult) (cueScope : ScopeComparison)
    (k : string) :
  verdict <$> linkScope cueResults cueScope !! k = verdict <$> cueResults !! k.
Proof.
  unfold linkScope. case_bool_decide; [|done].
  destruct (decide (Identifier cueScope = k)) as [->|Hne].
  - rewrite lookup_alter_eq. by destruct (cueResults !! _).
  - by rewrite lookup_alter_ne.
Qed.

(** Linking the scope data changes no action, reason or field diff. *)
Lemma linkScopeDataToCueResults_verdict (workspaceScope : option ScopeComparison)
    (cueResults : gmap string CueChangeResult) (k : string) :
  verdict <$> linkScopeDataToCueResults workspaceScope cueResults !! k
  = verdict <$> cueResults !! k.
Proof.
  destruct workspaceScope as [scope|]; [|done]. simpl.
  generalize (ChildScopes scope). intros children. revert cueResults.
  induction children as [|child children IH]; intros cueResults; simpl; [done|].
  by rewrite IH, linkScope_verdict.
Qed.

Lemma addPrefixed_union (prefix : string) (diffs modified : gmap string string) :
  addPrefixed prefix diffs modified = kmap (String.append prefix) diffs ∪ modified.
Proof.
  unfold addPrefixed.
  apply (map_fold_weak_ind (λ r m, r = kmap (String.append prefix) m ∪ modified)).
  - by rewrite kmap_empty, (left_id_L ∅ (∪)).
  - intros field diff m r _ ->. rewrite kmap_insert, insert_union_l; [done | apply _].
Qed.

Lemma prefixes_disjoint (d1 d2 : gmap string string) :
  (kmap (String.append "source_vs_cache_") d1 : gmap string string)
  ##ₘ kmap (String.append "cache_vs_current_") d2.
Proof.
  apply map_disjoint_spec. intros k x y.
  rewrite !lookup_kmap_Some; [|apply _..]. intros (i & -> & _) (j & Heq & _). discriminate.
Qed.

(** The result the comparison holds for a source key, up to the scope
    data linked to it. *)
Lemma PerformThreeWayComparison_result (w : World) (source : gomap) (k : string) :
  verdict <$> CueResults (PerformThreeWayComparison w source) !! k =
  (λ s, verdict (compareSourceCue
                   (match cacheData w with
                    | Ok cached => indexCuesFromWorkspace cached
                    | Err _ => ∅
                    end)
                   (match queryCurrent w with
                    | Some current => indexCuesFromWorkspace current
                    | None => ∅
                    end) k s)) <$> indexCuesFromWorkspace source !! k.
Proof.
  unfold PerformThreeWayComparison, cueIndexes.
  destruct (cacheData w) as [cached|msg], (queryCurrent w) as [current|]; simpl;
    rewrite ?linkScopeDataToCueResults_verdict, map_lookup_imap;
    by destruct (indexCuesFromWorkspace source !! k).
Qed.

(** C1. For a key present in the source, cache and current indexes the
    comparison holds exactly the result of the case the two field diffs
    select: both empty, skip, unchanged since last transmission; only
    cache against current non-empty, update, QLab modified externally,
    with that diff; only source against cache non-empty, update, source
    file modified, with that diff; both non-empty, update, both source and
    QLab modified, with the union of the two diffs under the prefixes
    [source_vs_cache_] and [cache_vs_current_]. *)
Theorem three_way_classification (w : World) (source cached current : gomap)
    (k : string) (s c q : gomap) :
  cacheData w = Ok cached →
  queryCurrent w = Some current →
  indexCuesFromWorkspace source !! k = Some s →
  indexCuesFromWorkspace cached !! k = Some c →
  indexCuesFromWorkspace current !! k = Some q →
  ∃ r, CueResults (PerformThreeWayComparison w source) !! k = Some r ∧
    let sourceCacheDiffs := compareCuePropertiesDetailed s c in
    let cacheCurrentDiffs := compareCuePropertiesDetailed c q in
    (sourceCacheDiffs = ∅ → cacheCurrentDiffs = ∅ →
       Action r = "skip" ∧ Reason r = "unchanged since last transmission" ∧
       ModifiedFields r = ∅) ∧
    (sourceCacheDiffs = ∅ → cacheCurrentDiffs ≠ ∅ →
       Action r = "update" ∧ Reason r = "QLab modified externally, reverting to source" ∧
       ModifiedFields r = cacheCurrentDiffs) ∧
    (sourceCacheDiffs ≠ ∅ → cacheCurrentDiffs = ∅ →
       Action r = "update" ∧ Reason r = "source file modified" ∧
       ModifiedFields r = sourceCacheDiffs) ∧
    (sourceCacheDiffs ≠ ∅ → cacheCurrentDiffs ≠ ∅ →
       Action r = "update" ∧ Reason r = "both source and QLab modified" ∧
       ModifiedFields r =
         kmap (String.append "source_vs_cache_") sourceCacheDiffs ∪
         kmap (String.append "cache_vs_current_") cacheCurrentDiffs).
Proof.
  intros Hcache Hquery Hs Hc Hq.
  pose proof (PerformThreeWayComparison_result w source k) as Hres.
  rewrite Hcache, Hquery, Hs in Hres. simpl in Hres.
  destruct (CueResults (PerformThreeWayComparison w source) !! k) as [r|]; [|done].
  exists r. split; [done|]. simpl in Hres.
  injection Hres as -> -> -> _ _.
  unfold compareSourceCue. rewrite Hq, Hc. unfold isEmptyMap.
  set (d1 := compareCuePropertiesDetailed s c).
  set (d2 := compareCuePropertiesDetailed c q).
  simpl. split; [|split; [|split]]; intros Hd1 Hd2.
  - by rewrite !bool_decide_eq_true_2.
  - rewrite (bool_decide_eq_true_2 (d1 = ∅)), (bool_decide_eq_false_2 (d2 = ∅)) by done. done.
  - rewrite (bool_decide_eq_false_2 (d1 = ∅)), (bool_decide_eq_true_2 (d2 = ∅)) by done. done.
  - rewrite (bool_decide_eq_false_2 (d1 = ∅)), (bool_decide_eq_false_2 (d2 = ∅)) by done.
    simpl. repeat split.
    rewrite !addPrefixed_union, (right_id_L ∅ (∪)).
    symmetry. apply map_union_comm, prefixes_disjoint.
Qed.

(** C2. When the query of the current state fails the comparison is
    still produced: the current index is the empty map, the results have
    exactly the keys of the source index, and every one of them says to
    create the cue as a new cue, whatever the cache holds. *)
Theorem failed_query_creates_every_cue (w : World) (source : gomap) :
  HasQLabData (PerformThreeWayComparison w source) = false →
  (∀ cached, (cueIndexes source cached (queryCurrent w)).2 = ∅) ∧
  (∀ k, is_Some (CueResults (PerformThreeWayComparison w source) !! k) ↔
        is_Some (indexCuesFromWorkspace source !! k)) ∧
  (∀ k r, CueResults (PerformThreeWayComparison w source) !! k = Some r →
          Action r = "create" ∧ Reason r = "new cue").
Proof.
  intros Hfail.
  assert (queryCurrent w = None) as Hquery.
  { unfold PerformThreeWayComparison in Hfail.
    destruct (queryCurrent w) as [current|]; [|done].
    by destruct (cacheData w). }
  pose proof (PerformThreeWayComparison_result w source) as Hres.
  rewrite Hquery in Hres. rewrite Hquery.
  split; [done|]. split.
  - intros k. specialize (Hres k).
    destruct (CueResults (PerformThreeWayComparison w source) !! k),
      (indexCuesFromWorkspace source !! k); try done; split; by eauto.
  - intros k r Hr. specialize (Hres k). rewrite Hr in Hres.
    destruct (indexCuesFromWorkspace source !! k) as [s|]; [|done].
    simpl in Hres. unfold compareSourceCue in Hres. rewrite lookup_empty in Hres.
    by injection Hres as -> -> _ _ _.
Qed.

End ThreeWayFacts.

(** ** Conflict gating and resolution *)
Section ConflictFacts.
Context `{Sprintf}.

(** C3. With no remote data, or no cache, or a cache that matches the
    remote state, no conflict is identified and no error is returned,
    whatever the per-cue results and the scope tree hold. *)
Theorem conflicts_gated (isFieldConflict : FieldConflict → bool)
    (comparison : ThreeWayComparison) :
  HasQLabData comparison = false ∨ HasCache comparison = false ∨
    CacheMatchesQLab comparison = true →
  IdentifyConflicts isFieldConflict comparison = ([], None).
Proof.
  unfold IdentifyConflicts. intros [-> | [Hcache | Hmatch]]; [done| |].
  - rewrite Hcache. by destruct (HasQLabData comparison).
  - rewrite Hmatch. by destruct (HasQLabData comparison), (HasCache comparison).
Qed.

End ConflictFacts.

(** The result a choice leaves for a cue. *)
Lemma applyResolution_other (i k : string) (choice : ConflictResolutionChoice)
    (comparison : ThreeWayComparison) :
  i ≠ k →
  CueResults (applyResolution i choice comparison) !! k = CueResults comparison !! k ∧
  QLabChosenCues (applyResolution i choice comparison) !! k = QLabChosenCues comparison !! k.
Proof.
  intros Hne. unfold applyResolution.
  destruct (CueResults comparison !! i) as [result|]; [|done].
  repeat case_bool_decide; simpl; rewrite ?lookup_insert_ne by done; done.
Qed.

Lemma applyResolution_keys (i k : string) (choice : ConflictResolutionChoice)
    (comparison : ThreeWayComparison) :
  is_Some (CueResults (applyResolution i choice comparison) !! k) ↔
  is_Some (CueResults comparison !! k).
Proof.
  unfold applyResolution.
  destruct (CueResults comparison !! i) as [result|] eqn:Hi; [|done].
  repeat case_bool_decide; simpl; rewrite lookup_insert; case_decide; subst;
    rewrite ?Hi; split; by eauto.
Qed.

(** The cues no resolution names keep their result and their place in
    the chosen set. *)
Lemma ApplyResolutions_other (comparison : ThreeWayComparison)
    (resolutions : gmap string ConflictResolutionChoice) (k : string) :
  resolutions !! k = None →
  CueResults (ApplyResolutions comparison resolutions) !! k = CueResults comparison !! k ∧
  QLabChosenCues (ApplyResolutions comparison resolutions) !! k
  = QLabChosenCues comparison !! k.
Proof.
  unfold ApplyResolutions. revert k.
  apply (map_fold_weak_ind (λ c' m, ∀ k, m !! k = None →
    CueResults c' !! k = CueResults comparison !! k ∧
    QLabChosenCues c' !! k = QLabChosenCues comparison !! k)); [done|].
  intros i choice m c' Hi IH k Hk.
  apply lookup_insert_None in Hk as [Hk Hne].
  destruct (applyResolution_other i k choice c' Hne) as [-> ->]. by apply IH.
Qed.

(** What a choice does at its own key depends on the comparison only
    through that key. *)
Lemma applyResolution_same (k : string) (choice : ConflictResolutionChoice)
    (c c0 : ThreeWayComparison) :
  CueResults c !! k = CueResults c0 !! k →
  QLabChosenCues c !! k = QLabChosenCues c0 !! k →
  CueResults (applyResolution k choice c) !! k = CueResults (applyResolution k choice c0) !! k ∧
  QLabChosenCues (applyResolution k choice c) !! k
  = QLabChosenCues (applyResolution k choice c0) !! k.
Proof.
  intros Hres Hchosen. unfold applyResolution. rewrite Hres.
  destruct (CueResults c0 !! k) as [result|] eqn:Hr; [|by rewrite Hr].
  repeat case_bool_decide; simpl; rewrite ?lookup_insert_eq; done.
Qed.

Lemma ApplyResolutions_chosen (comparison : ThreeWayComparison)
    (resolutions : gmap string ConflictResolutionChoice) (k : string)
    (choice : ConflictResolutionChoice) :
  resolutions !! k = Some choice →
  CueResults (ApplyResolutions comparison resolutions) !! k
  = CueResults (applyResolution k choice comparison) !! k ∧
  QLabChosenCues (ApplyResolutions comparison resolutions) !! k
  = QLabChosenCues (applyResolution k choice comparison) !! k.
Proof.
  unfold ApplyResolutions.
  enough (Hboth :
    (resolutions !! k = None →
       CueResults (map_fold applyResolution comparison resolutions) !! k
         = CueResults comparison !! k ∧
       QLabChosenCues (map_fold applyResolution comparison resolutions) !! k
         = QLabChosenCues comparison !! k) ∧
    (resolutions !! k = Some choice →
       CueResults (map_fold applyResolution comparison resolutions) !! k
         = CueResults (applyResolution k choice comparison) !! k ∧
       QLabChosenCues (map_fold applyResolution comparison resolutions) !! k
         = QLabChosenCues (applyResolution k choice comparison) !! k))
    by apply Hboth.
  apply (map_fold_weak_ind (λ c' m,
    (m !! k = None →
       CueResults c' !! k = CueResults comparison !! k ∧
       QLabChosenCues c' !! k = QLabChosenCues comparison !! k) ∧
    (m !! k = Some choice →
       CueResults c' !! k = CueResults (applyResolution k choice comparison) !! k ∧
       QLabChosenCues c' !! k
         = QLabChosenCues (applyResolution k choice comparison) !! k))); [done|].
  intros i x m c' Hi [IHnone IHsome].
  destruct (decide (i = k)) as [->|Hne].
  - rewrite lookup_insert_eq. split; [done|]. intros [= ->].
    destruct (IHnone Hi) as [Hres Hchosen]. by apply applyResolution_same.
  - rewrite lookup_insert_ne by done.
    destruct (applyResolution_other i k x c' Hne) as [-> ->]. done.
Qed.

(** C6. Applying resolutions to a key that has a result: keeping the QLab
    version skips the cue and records the key as chosen; using the source
    updates it; skipping skips it; the last two leave the chosen set at
    that key as it was; each sets the reason that names the choice. *)
Theorem resolutions_applied (comparison : ThreeWayComparison)
    (resolutions : gmap string ConflictResolutionChoice) (k : string)
    (choice : ConflictResolutionChoice) (r : CueChangeResult) :
  resolutions !! k = Some choice →
  CueResults comparison !! k = Some r →
  let resolved := ApplyResolutions comparison resolutions in
  (choice = ChoiceKeepQLab →
     CueResults resolved !! k
       = Some (setActionReason "skip" "User chose to keep QLab version" r) ∧
     QLabChosenCues resolved !! k = Some true) ∧
  (choice = ChoiceUseSource →
     CueResults resolved !! k
       = Some (setActionReason "update" "User chose to use source file version" r) ∧
     QLabChosenCues resolved !! k = QLabChosenCues comparison !! k) ∧
  (choice = ChoiceSkip →
     CueResults resolved !! k
       = Some (setActionReason "skip" "User chose to skip this cue" r) ∧
     QLabChosenCues resolved !! k = QLabChosenCues comparison !! k).
Proof.
  intros Hchoice Hr. simpl.
  destruct (ApplyResolutions_chosen comparison resolutions k choice Hchoice) as [-> ->].
  unfold applyResolution. rewrite Hr.
  split; [|split]; intros ->; simpl; by rewrite !lookup_insert_eq.
Qed.

(** ** The mutation pass *)
Section MutationFacts.
Context `{Sprintf}.
Variable qlab : list Command → result string.

(** A loop stops with the error of the first element whose body fails,
    in the state that body left. *)
Lemma rangeLoopE_error {A} (body : nat → A → M unit) (l : list A) (j : nat) (x : A)
    (st st2 st3 : Pass) (e : string) :
  l !! j = Some x →
  rangeLoopE body 0 (take j l) st = (Ok tt, st2) →
  body j x st2 = (Err e, st3) →
  rangeLoopE body 0 l st = (Err e, st3).
Proof.
  enough (Hgen : ∀ i, l !! j = Some x →
    rangeLoopE body i (take j l) st = (Ok tt, st2) →
    body (i + j)%nat x st2 = (Err e, st3) →
    rangeLoopE body i l st = (Err e, st3)) by apply (Hgen 0%nat).
  revert l st. induction j as [|j IH]; intros l st i Hj Hbefore Hbody.
  - destruct l as [|y l]; [done|]. simpl in *. injection Hj as ->.
    injection Hbefore as ->. rewrite Nat.add_0_r in Hbody.
    unfold bind. by rewrite Hbody.
  - destruct l as [|y l]; [done|]. simpl in *.
    unfold bind in *. destruct (body i y st) as [[[]|msg] st']; [|done].
    apply (IH l st' (S i)); [done..|].
    by replace (S i + j)%nat with (i + S j)%nat by lia.
Qed.

(** The method stops at a cue whose change result says to update a cue
    with no existing ID, before any request. *)
Lemma processOwnCue_update_without_id (cueData : gomap) (parentNumber parentUniqueID : string)
    (changeResults : gmap string CueChangeResult) (cueIndex : Z) (st : Pass)
    (lookupKey : string) (r : CueChangeResult) :
  lookupChange changeResults (fullNumber parentNumber (cueNumber cueData)) parentNumber
    (getString cueData "type") (getString cueData "name") cueIndex = Some (lookupKey, r) →
  Action r = "update" →
  ExistingID r = "" →
  processOwnCue qlab cueData parentNumber parentUniqueID changeResults cueIndex st
  = (Err ("cannot update cue " +:+ lookupKey +:+ ": no existing ID provided"), st).
Proof.
  intros Hlookup Haction Hid. unfold processOwnCue.
  rewrite Hlookup, Haction, Hid. reflexivity.
Qed.


End MutationFacts.

(** ** The request/reply loop *)
Section SendFacts.
Variable network : Z → Attempt.
Variables (address input : string) (args : list value).

(** Without a reply, whatever else happens to the attempts, the caller
    gets the timeout payload. *)
Lemma sendLoop_no_reply (remaining : nat) (attempt : Z) (q : Connection) :
  (∀ id result, network id ≠ Replied result) →
  (sendLoop network address input args remaining attempt q).1 = timeoutReply.
Proof.
  intros Hnone. revert attempt q.
  induction remaining as [|remaining IH]; intros attempt q; simpl; [done|].
  destruct (network _) as [|result|] eqn:Hnet.
  - apply IH.
  - by destruct (Hnone _ _ Hnet).
  - case_bool_decide; [apply IH | done].
Qed.

Lemma countError_trace (q : Connection) :
  consecutiveErrors (countError q) = consecutiveErrors q + 1 ∧
  ∃ tail, trace (countError q) = (trace q ++ tail)%list ∧
          (tail = [] ∨ tail = [DisconnectNotified]).
Proof.
  unfold countError. destruct (_ && _); simpl; (split; [done|]).
  - exists [DisconnectNotified]. auto.
  - exists []. rewrite app_nil_r. auto.
Qed.

Lemma sendLoop_all_timeouts (remaining : nat) (attempt : Z) (q : Connection) :
  (∀ id, network id = TimedOut) →
  remaining = Z.to_nat (maxRetries q - attempt + 1) →
  let out := sendLoop network address input args remaining attempt q in
  out.1 = timeoutReply ∧
  consecutiveErrors out.2 = consecutiveErrors q + 1 ∧
  ∃ tail,
    trace out.2 =
      (trace q ++
       timeoutTrace address (messageArguments input args) remaining
         (requestCounter q + 1) (effectiveTimeout q) ++ tail)%list ∧
    (tail = [] ∨ tail = [DisconnectNotified]).
Proof.
  intros Hall. revert attempt q.
  induction remaining as [|remaining IH]; intros attempt q Hrem; simpl.
  - split; [done|]. apply countError_trace.
  - rewrite Hall. case_bool_decide as Hretry; simpl in *.
    + destruct (IH (attempt + 1)
          (logEvent (SleptMillis 100)
             (logEvent (WaitedSeconds (effectiveTimeout (nextRequest q)))
                (logEvent (Sent (requestCounter q + 1) address (messageArguments input args))
                   (nextRequest q)))))
        as (Hreply & Herrors & tail & Htrace & Htail); [simpl; lia|].
      split; [done|]. split; [done|]. exists tail. split; [|done].
      rewrite Htrace. simpl. rewrite <-!app_assoc. simpl.
      destruct remaining as [|remaining']; [lia|]. done.
    + assert (remaining = 0%nat) as -> by lia.
      split; [done|].
      destruct (countError_trace
          (logEvent (WaitedSeconds (effectiveTimeout (nextRequest q)))
             (logEvent (Sent (requestCounter q + 1) address (messageArguments input args))
                (nextRequest q))))
        as (Herrors & tail & Htrace & Htail).
      split; [done|]. exists tail. split; [|done].
      rewrite Htrace. simpl. by rewrite <-!app_assoc.
Qed.

(** C9. For every request, when every attempt times out,
    [sendWithRetry] returns the one-element payload with the timeout
    text, which is not nil. It made the initial attempt and one more per
    configured retry, waited the timeout on each (10 seconds when none is
    set), paused 100 ms between attempts, and counted one more consecutive
    error; with the default of no retries there is one attempt. *)
Theorem timeout_surfaced_as_data (q : Connection) :
  (∀ id, network id = TimedOut) →
  let out := sendWithRetry network address input args q in
  let msg := messageArguments input args in
  out.1 = [VString timeoutText] ∧ out.1 ≠ [] ∧
  consecutiveErrors out.2 = consecutiveErrors q + 1 ∧
  (∃ tail,
     trace out.2 =
       (trace q ++
        timeoutTrace address msg (Z.to_nat (maxRetries q + 1)) (requestCounter q + 1)
          (effectiveTimeout q)
        ++ tail)%list ∧
     (tail = [] ∨ tail = [DisconnectNotified])) ∧
  (timeout q = 0 → effectiveTimeout q = 10) ∧
  (maxRetries q = 0 →
     timeoutTrace address msg (Z.to_nat (maxRetries q + 1)) (requestCounter q + 1)
       (effectiveTimeout q)
     = [Sent (requestCounter q + 1) address msg; WaitedSeconds (effectiveTimeout q)]).
Proof.
  intros Hall. simpl. unfold sendWithRetry.
  destruct (sendLoop_all_timeouts (Z.to_nat (maxRetries q + 1)) 0 q Hall)
    as (Hreply & Herrors & Htrace); [f_equal; lia|].
  split; [done|]. split; [by rewrite Hreply|]. split; [done|]. split; [done|]. split.
  - intros Hunset. unfold effectiveTimeout. by rewrite bool_decide_eq_true_2.
  - by intros ->.
Qed.

End SendFacts.

(** ** The theorems at concrete inputs *)

Lemma three_way_classification_witness :
  ∃ r, CueResults (PerformThreeWayComparison (H:=exampleSprintf)
                     (exampleWorld (Ok (workspaceOf [cueNamed "1" "b"]))
                                   (Ok (workspaceOf [cueNamed "1" "c"])))
                     (workspaceOf [cueNamed "1" "a"])) !! "1" = Some r ∧
       Action r = "update" ∧ Reason r = "both source and QLab modified" ∧
       ModifiedFields r !! "source_vs_cache_name" = Some "'a' -> 'b'" ∧
       ModifiedFields r !! "cache_vs_current_name" = Some "'b' -> 'c'".
Proof.
  destruct (three_way_classification (H:=exampleSprintf)
              (exampleWorld (Ok (workspaceOf [cueNamed "1" "b"]))
                            (Ok (workspaceOf [cueNamed "1" "c"])))
              (workspaceOf [cueNamed "1" "a"])
              (workspaceOf [cueNamed "1" "b"]) (workspaceOf [cueNamed "1" "c"])
              "1" (cueNamed "1" "a") (cueNamed "1" "b") (cueNamed "1" "c"))
    as (r & Hr & _ & _ & _ & Hboth); [reflexivity..|].
  exists r. split; [exact Hr|].
  destruct Hboth as (Haction & Hreason & Hfields); [by vm_compute..|].
  split; [exact Haction|]. split; [exact Hreason|].
  rewrite Hfields. split.
  - apply lookup_union_Some_l.
    rewrite (lookup_kmap (String.append "source_vs_cache_") _ "name"). by vm_compute.
  - rewrite lookup_union_r.
    + rewrite (lookup_kmap (String.append "cache_vs_current_") _ "name"). by vm_compute.
    + apply lookup_kmap_None; [apply _|]. intros i Heq. discriminate.
Defined.

Lemma failed_query_creates_every_cue_witness :
  ∃ r, CueResults (PerformThreeWayComparison (H:=exampleSprintf)
                     (exampleWorld (Ok (workspaceOf [cueNamed "1" "b"]))
                                   (Err "connection refused"))
                     (workspaceOf [cueNamed "1" "a"])) !! "1" = Some r ∧
       Action r = "create" ∧ Reason r = "new cue".
Proof.
  destruct (failed_query_creates_every_cue (H:=exampleSprintf)
              (exampleWorld (Ok (workspaceOf [cueNamed "1" "b"])) (Err "connection refused"))
              (workspaceOf [cueNamed "1" "a"]) eq_refl) as (_ & Hkeys & Hcreate).
  destruct (proj2 (Hkeys "1")) as [r Hr]; [by vm_compute; eexists|].
  exists r. split; [exact Hr|]. by apply (Hcreate "1").
Defined.

Lemma conflicts_gated_witness :
  IdentifyConflicts (H:=exampleSprintf) (λ _, true) (exampleComparison true false false)
  = ([], None).
Proof.
  apply (conflicts_gated (H:=exampleSprintf) (λ _, true) (exampleComparison true false false)).
  left. reflexivity.
Defined.

Lemma resolutions_applied_witness :
  let resolved := ApplyResolutions (exampleComparison true true false)
                    {[ "1" := ChoiceKeepQLab ]} in
  Action <$> CueResults resolved !! "1" = Some "skip" ∧
  Reason <$> CueResults resolved !! "1" = Some "User chose to keep QLab version" ∧
  QLabChosenCues resolved !! "1" = Some true.
Proof.
  destruct (resolutions_applied (exampleComparison true true false)
              {[ "1" := ChoiceKeepQLab ]} "1" ChoiceKeepQLab updateWithoutID)
    as ((Hresult & Hchosen) & _); [reflexivity..|].
  cbv zeta. rewrite Hresult, Hchosen. done.
Defined.


Lemma timeout_surfaced_as_data_witness :
  (sendWithRetry (λ _, TimedOut) "/cueLists" "" [] freshConnection).1 = [VString timeoutText] ∧
  trace (sendWithRetry (λ _, TimedOut) "/cueLists" "" [] freshConnection).2
  = [Sent 1 "/cueLists" []; WaitedSeconds 10].
Proof.
  destruct (timeout_surfaced_as_data (λ _, TimedOut) "/cueLists" "" [] freshConnection
              (λ _, eq_refl))
    as (Hreply & _). split; [exact Hreply | reflexivity].
Defined.

(** ** Where the keys of the walks part

    The pass processes the top-level cues with index -1, for which no
    position key exists: the change result of a top-level cue without a
    number is not found, and the cue is created. *)
Example top_level_unnumbered_cue_created :
  lookupChange {[ "@0[group:G]" := updateWithoutID ]} "" "" "group" "G" (-1) = None ∧
  processCueListWithParentMappingAndChangeDetectionWithIndex (H:=exampleSprintf)
    (λ _, Ok "ID") [("type", VString "group"); ("name", VString "G")] "" ""
    {[ "@0[group:G]" := updateWithoutID ]} (-1) emptyPass
  = (Ok "ID",
     {| cueListNames := ∅; NumberToID := ∅; CuesWithTargets := [];
        issued := [CreateCue [("type", VString "group"); ("name", VString "G")] ""] |}).
Proof. split; reflexivity. Qed.

(** The search made to preserve a skipped cue descends with the
    identifier of the parent, the indexer with its full number: under a
    parent without a number the two keys of a numbered child differ. *)
Example numbered_child_of_unnumbered_parent :
  let tree := [VMap [("type", VString "group");
                     ("cues", VArray [VMap [("number", VString "5")]])]] in
  is_Some (indexCuesRecursively (H:=exampleSprintf) tree "" ∅ !! "5") ∧
  findAndReplaceCueInArray (H:=exampleSprintf) tree [] "5" "" = None.
Proof. split; [by vm_compute; eexists | reflexivity]. Qed.
